(** * The running-sessions extension of JupyterLab

    A shallow embedding of [packages/running-extension/src/index.ts]: the
    provider of the running kernels ([addKernelRunningSessionManager], with
    its [filterSessions] predicate and its [RunningKernel] items), the
    provider of the open tabs ([addOpenTabs], with its [OpenTab] items) and
    the [OpenTabsSignaler] that turns the title changes of the tracked
    widgets and the layout changes of the shell into one [tabsChanged]
    signal. *)

From Stdlib Require Import String Ascii List Bool Arith ZArith Lia.
Import ListNotations.

Local Open Scope string_scope.
Local Open Scope list_scope.

(** ** JavaScript strings

    A string is a [String.string]; the operations the extension uses are
    [||] on strings (the empty string is the only falsy one), [indexOf] and
    [toLowerCase]. *)

Module JS.

(** [s.indexOf(sub)]: the first position of [sub] in [s], or [-1]. The
    extension only asks whether the result is [-1], for the markers [.]
    and [.ipynb]. *)
Definition indexOf (s sub : string) : Z :=
  match String.index 0 sub s with
  | Some i => Z.of_nat i
  | None => (-1)%Z
  end.

(** [s.indexOf(sub) !== -1]. *)
Definition found (s sub : string) : bool :=
  negb (indexOf s sub =? -1)%Z.

(** [!!s] for a string. *)
Definition truthy (s : string) : bool :=
  match s with
  | EmptyString => false
  | String _ _ => true
  end.

(** [a || b] for two strings. *)
Definition or_else (a b : string) : string :=
  if truthy a then a else b.

(** The lower-case mapping of one character: the letters [A]..[Z] move to
    [a]..[z] and every other byte stays. No character outside ASCII
    lowers to one of the letters of ['console'] (the Kelvin sign lowers to
    [k] and is the only one lowering to an ASCII letter), so the comparison
    [type.toLowerCase() === 'console'] is decided by this mapping. *)
Definition lower_char (c : ascii) : ascii :=
  let n := nat_of_ascii c in
  if ((65 <=? n) && (n <=? 90))%nat then ascii_of_nat (n + 32) else c.

Fixpoint toLowerCase (s : string) : string :=
  match s with
  | EmptyString => EmptyString
  | String c rest => String (lower_char c) (toLowerCase rest)
  end.

(** [sub] occurs in [s]. *)
Definition contains (s sub : string) : Prop :=
  exists pre post, s = (pre ++ sub ++ post)%string.

End JS.

(** ** Paths *)

Module PathExt.

Definition slash : ascii := "/"%char.

Fixpoint drop_slashes (l : list ascii) : list ascii :=
  match l with
  | c :: rest => if Ascii.eqb c slash then drop_slashes rest else l
  | [] => []
  end.

Fixpoint take_component (l : list ascii) : list ascii :=
  match l with
  | c :: rest => if Ascii.eqb c slash then [] else c :: take_component rest
  | [] => []
  end.

(** Modelled from the spec: [PathExt.basename] of [@jupyterlab/coreutils],
    which the extension imports and whose source is not part of the
    extension. It is the POSIX base name: the trailing slashes are dropped
    and what follows the last remaining slash is returned. The theorems on
    the kernels below hold for every [basename]; this one is used to run
    the code on concrete records. *)
Definition basename (path : string) : string :=
  string_of_list_ascii
    (rev (take_component (drop_slashes (rev (list_ascii_of_string path))))).

End PathExt.

(** ** Icons and commands *)

Inductive LabIcon : Set :=
| consoleIcon
| fileIcon
| notebookIcon
| runningIcon.

(** One call of [app.commands.execute(id, { path })]. *)
Record Execution : Set := { command : string; arg_path : string }.

(** The part of the application the items act on: the commands executed so
    far, oldest first. *)
Record App : Set := { executed : list Execution }.

Definition execute (id path : string) (app : App) : App :=
  {| executed := executed app ++ [ {| command := id; arg_path := path |} ] |}.

(** ** Session models *)

Module Session.

(** [Session.IModel]: the record the session manager reports for a running
    session; [kernel] is the name of its kernel, when it has one. *)
Record IModel : Set := {
  id : string;
  name : string;
  path : string;
  type : string;
  kernel : option string
}.

End Session.

(** ** The running kernels *)

Module Kernels.
Import Session.

Section WithBasename.

(** [PathExt.basename]. *)
Variable basename : string -> string.

(** [filterSessions]:
    [!!((m.name || basename(m.path)).indexOf('.') !== -1 || m.name)]. *)
Definition filterSessions (m : IModel) : bool :=
  JS.found (JS.or_else (name m) (basename (path m))) "."
  || JS.truthy (name m).

(** An item of the provider: [new RunningKernel(model)]. *)
Record RunningKernel : Set := { _model : IModel }.

(** [running]: the sessions of the manager, filtered, one item each. *)
Definition running (sessions : list IModel) : list RunningKernel :=
  map (fun model => {| _model := model |}) (filter filterSessions sessions).

(** [RunningKernel.open]. *)
Definition open (item : RunningKernel) (app : App) : App :=
  let path := path (_model item) in
  let type := type (_model item) in
  if String.eqb (JS.toLowerCase type) "console"
  then execute "console:open" path app
  else execute "docmanager:open" path app.

(** [RunningKernel.icon]. *)
Definition icon (item : RunningKernel) : LabIcon :=
  let name := name (_model item) in
  let path := path (_model item) in
  let type := type (_model item) in
  if JS.found (JS.or_else name (basename path)) ".ipynb" then notebookIcon
  else if String.eqb (JS.toLowerCase type) "console" then consoleIcon
  else fileIcon.

(** [RunningKernel.label]. *)
Definition label (item : RunningKernel) : string :=
  JS.or_else (name (_model item)) (basename (path (_model item))).

End WithBasename.

(** The classification as the specification words it, to be compared with
    [icon]: a record is a notebook when its name or its path contains the
    marker. *)
Definition icon_by_name_or_path (item : RunningKernel) : LabIcon :=
  let name := name (_model item) in
  let path := path (_model item) in
  let type := type (_model item) in
  if JS.found name ".ipynb" || JS.found path ".ipynb" then notebookIcon
  else if String.eqb (JS.toLowerCase type) "console" then consoleIcon
  else fileIcon.

(** What an item shows of its record: the name, and for a record without
    a name the base name of the path. *)
Definition shown (basename : string -> string) (m : IModel) : string :=
  if String.eqb (name m) "" then basename (path m) else name m.

(** [c] is the letter [lower], in either case. *)
Definition letter (lower upper c : ascii) : Prop :=
  c = lower \/ c = upper.

(** [t] is the word [console], each letter in either case. *)
Definition spells_console (t : string) : Prop :=
  exists c0 c1 c2 c3 c4 c5 c6,
    t = String c0 (String c1 (String c2 (String c3 (String c4
          (String c5 (String c6 EmptyString))))))
    /\ letter "c" "C" c0 /\ letter "o" "O" c1 /\ letter "n" "N" c2
    /\ letter "s" "S" c3 /\ letter "o" "O" c4 /\ letter "l" "L" c5
    /\ letter "e" "E" c6.

Section WithManager.

(** The session manager, [app.serviceManager.sessions], and its own
    [shutdownAll]. *)
Variable Manager : Type.
Variable manager_shutdownAll : Manager -> Manager.

(** [shutdownAll: () => manager.shutdownAll()]. *)
Definition shutdownAll (manager : Manager) : Manager :=
  manager_shutdownAll manager.

End WithManager.

End Kernels.

(** ** Widgets of the shell *)

(** A [Title] object is identified by [title_id]: it is the sender of its
    [changed] signal. *)
Definition TitleId := nat.

Record Title : Set := {
  title_id : TitleId;
  title_label : string;
  title_icon : option LabIcon
}.

(** A [MainAreaWidget] wraps a [content] widget, whose title is
    [content_title]; a [DocumentWidget] is a [MainAreaWidget] with a
    document context, whose path is [context_path]. The widget copies a
    change of its own title to the title of its content: such a change
    comes as a change of [main_title] followed by one of
    [content_title]. *)
Record MainAreaWidget : Set := {
  main_id : string;
  main_title : Title;
  content_title : Title;
  context_path : option string
}.

Inductive Widget : Set :=
| OtherWidget (id : string) (title : Title)
| MainArea (w : MainAreaWidget).

Definition widget_id (widget : Widget) : string :=
  match widget with
  | OtherWidget id _ => id
  | MainArea w => main_id w
  end.

Definition widget_title (widget : Widget) : Title :=
  match widget with
  | OtherWidget _ title => title
  | MainArea w => main_title w
  end.

(** [widget instanceof MainAreaWidget], with the widget at that type. *)
Definition as_MainAreaWidget (widget : Widget) : option MainAreaWidget :=
  match widget with
  | OtherWidget _ _ => None
  | MainArea w => Some w
  end.

(** ** The shell

    [labShell.widgets('main')], the calls of [labShell.activateById] and the
    calls of [widget.close()], oldest first. *)

Record Shell : Set := {
  main : list Widget;
  activated : list string;
  close_calls : list string
}.

(** A call either returns or throws; either way it leaves a state. *)
Inductive Completion (A : Type) : Type :=
| Normal (a : A)
| Thrown (a : A).

Arguments Normal {A} a.
Arguments Thrown {A} a.

Definition state_of {A : Type} (c : Completion A) : A :=
  match c with
  | Normal a => a
  | Thrown a => a
  end.

Definition returns {A : Type} (c : Completion A) : bool :=
  match c with
  | Normal _ => true
  | Thrown _ => false
  end.

(** [array.forEach(f)]: the elements in order; an exception of [f] ends
    the loop and is the exception of [forEach]. *)
Fixpoint forEach {S X : Type} (f : X -> S -> Completion S) (l : list X) (s : S)
  : Completion S :=
  match l with
  | [] => Normal s
  | x :: rest =>
      match f x s with
      | Normal s' => forEach f rest s'
      | Thrown s' => Thrown s'
      end
  end.

(** What [widget.close()] does is up to the widget: it leaves the shell, it
    stays (the close request was not accepted), or the call throws. *)
Inductive CloseOutcome : Set :=
| Closes
| StaysOpen
| Throws.

Definition record_close (widget : Widget) (sh : Shell) : Shell :=
  {| main := main sh;
     activated := activated sh;
     close_calls := close_calls sh ++ [widget_id widget] |}.

Definition remove_widget (widget : Widget) (sh : Shell) : Shell :=
  {| main :=
       filter (fun x => negb (String.eqb (widget_id x) (widget_id widget)))
         (main sh);
     activated := activated sh;
     close_calls := close_calls sh |}.

(** [widget.close()], for widgets that behave as [outcome] says. *)
Definition close (outcome : Widget -> CloseOutcome) (widget : Widget)
  (sh : Shell) : Completion Shell :=
  let sh := record_close widget sh in
  match outcome widget with
  | Closes => Normal (remove_widget widget sh)
  | StaysOpen => Normal sh
  | Throws => Thrown sh
  end.

(** [labShell.activateById(id)]. *)
Definition activateById (id : string) (sh : Shell) : Shell :=
  {| main := main sh;
     activated := activated sh ++ [id];
     close_calls := close_calls sh |}.

(** ** Signals

    The connections of [@lumino/signaling] that the signaler makes. All of
    them have the slot [this._emitTabsChanged] and the receiver [this], so
    a connection is told by the signal it is made to. The library is not
    part of the extension; the model follows its contract. Connections are
    unique: [connect] returns [false] and changes nothing when a
    connection for the signal, the slot and the receiver exists, and it
    adds the connection at the end otherwise. [disconnect] returns [false]
    when there is no such connection; otherwise it clears the [signal]
    field of the connection, which stays in the array until the deferred
    clean-up removes it. [emit] goes through the connections that were
    there when it started, in their order, and invokes the slot of those
    whose signal is still the emitted one: a slot disconnected during the
    emission is no longer invoked. *)

Module Signaling.

Inductive Signal : Set :=
| layoutModified
| title_changed (t : TitleId).

Definition signal_eqb (a b : Signal) : bool :=
  match a, b with
  | layoutModified, layoutModified => true
  | title_changed t, title_changed u => Nat.eqb t u
  | _, _ => false
  end.

(** A connection: [Some s] while it is connected to [s], [None] once it
    was disconnected. *)
Definition Connection := option Signal.

Definition connected_to (s : Signal) (c : Connection) : bool :=
  match c with
  | Some s' => signal_eqb s' s
  | None => false
  end.

(** [findConnection]: is there a connection to [s]? *)
Definition findConnection (receivers : list Connection) (s : Signal) : bool :=
  existsb (connected_to s) receivers.

(** [connect]: [false] and no change when the connection exists, else the
    connection is added at the end. *)
Definition connect (s : Signal) (receivers : list Connection)
  : bool * list Connection :=
  if findConnection receivers s then (false, receivers)
  else (true, receivers ++ [Some s]).

(** The first connection to [s] loses its signal. *)
Fixpoint clear_first (s : Signal) (receivers : list Connection)
  : list Connection :=
  match receivers with
  | [] => []
  | c :: rest =>
      if connected_to s c then None :: rest else c :: clear_first s rest
  end.

(** [disconnect]: [false] and no change when there is no such connection. *)
Definition disconnect (s : Signal) (receivers : list Connection)
  : bool * list Connection :=
  if findConnection receivers s then (true, clear_first s receivers)
  else (false, receivers).

(** The deferred clean-up: the dead connections leave the array. *)
Definition cleanup (receivers : list Connection) : list Connection :=
  filter (fun c => match c with Some _ => true | None => false end) receivers.

Definition signal_eq_dec (a b : Signal) : {a = b} + {a <> b}.
Proof. decide equality. apply Nat.eq_dec. Defined.

Definition connection_eq_dec (a b : Connection) : {a = b} + {a <> b}.
Proof. decide equality. apply signal_eq_dec. Defined.

(** How many connections to [s] there are. *)
Definition live (s : Signal) (receivers : list Connection) : nat :=
  count_occ connection_eq_dec receivers (Some s).

(** [after] is [before] with some connections disconnected. *)
Definition faded (before after : list Connection) : Prop :=
  Forall2 (fun c c' => c' = c \/ c' = None) before after.

Section Emit.

(** [emit] runs in a world [W] that holds the receivers and in which the
    slot runs. *)
Variable W : Type.
Variable receivers_of : W -> list Connection.
Variable slot : W -> W.

(** The loop of [emit]: [for (i = 0, n = receivers.length; i < n; ++i)],
    the connection is read at each turn and its slot is invoked when its
    signal is still [s]. *)
Fixpoint emit_loop (s : Signal) (indices : list nat) (w : W) : W :=
  match indices with
  | [] => w
  | i :: rest =>
      let w' :=
        match nth_error (receivers_of w) i with
        | Some c => if connected_to s c then slot w else w
        | None => w
        end in
      emit_loop s rest w'
  end.

Definition emit (s : Signal) (w : W) : W :=
  emit_loop s (seq 0 (length (receivers_of w))) w.

End Emit.

End Signaling.

(** ** The signaler of the open tabs *)

Module OpenTabsSignaler.
Import Signaling.

(** What the signaler does, in the order it does it. The listeners of
    [tabsChanged] are outside the extension: an emission is what they are
    told, and it is recorded as [EmitTabsChanged]. *)
Inductive Event : Set :=
| Connect (s : Signal)
| Disconnect (s : Signal)
| ResetWidgets
| EmitTabsChanged.

(** The shell, the connections of the signal library, the field
    [_widgets] of the signaler and the events so far, oldest first. *)
Record World : Set := {
  shell : Shell;
  receivers : list Connection;
  _widgets : list MainAreaWidget;
  trace : list Event
}.

Definition log (e : Event) (w : World) : World :=
  {| shell := shell w;
     receivers := receivers w;
     _widgets := _widgets w;
     trace := trace w ++ [e] |}.

Definition set_receivers (rs : list Connection) (w : World) : World :=
  {| shell := shell w;
     receivers := rs;
     _widgets := _widgets w;
     trace := trace w |}.

Definition set_widgets (ws : list MainAreaWidget) (w : World) : World :=
  {| shell := shell w;
     receivers := receivers w;
     _widgets := ws;
     trace := trace w |}.

Definition set_shell (sh : Shell) (w : World) : World :=
  {| shell := sh;
     receivers := receivers w;
     _widgets := _widgets w;
     trace := trace w |}.

(** [signal.connect(this._emitTabsChanged, this)]. *)
Definition signal_connect (s : Signal) (w : World) : World :=
  log (Connect s) (set_receivers (snd (connect s (receivers w))) w).

(** [signal.disconnect(this._emitTabsChanged, this)]. *)
Definition signal_disconnect (s : Signal) (w : World) : World :=
  log (Disconnect s) (set_receivers (snd (disconnect s (receivers w))) w).

(** The [changed] signal of the title of the content of [widget]. *)
Definition content_title_changed (widget : MainAreaWidget) : Signal :=
  title_changed (title_id (content_title widget)).

(** [new OpenTabsSignaler(labShell)]: the fields are initialised and the
    signaler listens to the layout of the shell. *)
Definition constructor (sh : Shell) : World :=
  signal_connect layoutModified
    {| shell := sh; receivers := []; _widgets := []; trace := [] |}.

(** [addWidget]. *)
Definition addWidget (widget : Widget) (w : World) : World :=
  match as_MainAreaWidget widget with
  | Some widget =>
      let w := signal_connect (content_title_changed widget) w in
      set_widgets (_widgets w ++ [widget]) w
  | None => w
  end.

(** The [forEach] of [_emitTabsChanged]. *)
Definition disconnect_all (widgets : list MainAreaWidget) (w : World)
  : World :=
  fold_left
    (fun w widget => signal_disconnect (content_title_changed widget) w)
    widgets w.

(** [_emitTabsChanged]. *)
Definition _emitTabsChanged (w : World) : World :=
  let w := disconnect_all (_widgets w) w in
  let w := log ResetWidgets (set_widgets [] w) in
  log EmitTabsChanged w.

(** A signal the signaler may be connected to is emitted by its sender. *)
Definition fire (s : Signal) (w : World) : World :=
  emit World receivers _emitTabsChanged s w.

Definition is_emission (e : Event) : bool :=
  match e with
  | EmitTabsChanged => true
  | _ => false
  end.

(** How often [tabsChanged] was emitted. *)
Definition emissions (w : World) : nat :=
  length (filter is_emission (trace w)).

(** Is the signaler connected to [s]? *)
Definition subscribed (s : Signal) (w : World) : bool :=
  findConnection (receivers w) s.

(** The titles of the tracked widgets. *)
Definition tracked_titles (w : World) : list TitleId :=
  map (fun x => title_id (content_title x)) (_widgets w).

(** The state of a signaler between two calls: it listens to the layout
    once, and to the title of the content of each tracked widget once,
    and to no other title. *)
Record consistent (w : World) : Prop := {
  layout_connected : live layoutModified (receivers w) = 1;
  tracked_connected :
    forall t, In t (tracked_titles w) ->
              live (title_changed t) (receivers w) = 1;
  untracked_unconnected :
    forall t, ~ In t (tracked_titles w) ->
              live (title_changed t) (receivers w) = 0
}.



End OpenTabsSignaler.

(** ** The open tabs *)

Module OpenTabs.
Import Signaling OpenTabsSignaler.

(** The main-area widgets among [widgets], at that type. *)
Fixpoint main_area_widgets (widgets : list Widget) : list MainAreaWidget :=
  match widgets with
  | [] => []
  | widget :: rest =>
      match as_MainAreaWidget widget with
      | Some x => x :: main_area_widgets rest
      | None => main_area_widgets rest
      end
  end.

(** The connections after a [connect] for the title of the content of
    each of [widgets]. *)
Definition connect_each (widgets : list MainAreaWidget)
  (receivers : list Connection) : list Connection :=
  fold_left (fun rs x => snd (connect (content_title_changed x) rs))
    widgets receivers.

(** Is [widget] one of [widgets], by its [id]? *)
Definition among (widgets : list Widget) (widget : Widget) : bool :=
  existsb (fun x => String.eqb (widget_id widget) (widget_id x)) widgets.

(** An item of the provider: [new OpenTab(widget)]. *)
Record OpenTab : Set := { _widget : Widget }.

(** The [map] of [running]: each widget is added to the signaler and
    wrapped. *)
Fixpoint running_map (widgets : list Widget) (w : World)
  : list OpenTab * World :=
  match widgets with
  | [] => ([], w)
  | widget :: rest =>
      let w := addWidget widget w in
      let (tabs, w) := running_map rest w in
      ({| _widget := widget |} :: tabs, w)
  end.

(** [running]. *)
Definition running (w : World) : list OpenTab * World :=
  running_map (main (shell w)) w.

(** [shutdownAll]. *)
Definition shutdownAll (outcome : Widget -> CloseOutcome) (sh : Shell)
  : Completion Shell :=
  forEach (close outcome) (main sh) sh.

(** The widgets that [shutdownAll] gets to: those before the first widget
    whose [close] throws, and that widget. *)
Fixpoint reached (outcome : Widget -> CloseOutcome) (widgets : list Widget)
  : list Widget :=
  match widgets with
  | [] => []
  | x :: rest =>
      match outcome x with
      | Throws => [x]
      | _ => x :: reached outcome rest
      end
  end.

(** [OpenTab.open]. *)
Definition open (tab : OpenTab) (sh : Shell) : Shell :=
  activateById (widget_id (_widget tab)) sh.

(** [OpenTab.shutdown]. *)
Definition shutdown (outcome : Widget -> CloseOutcome) (tab : OpenTab)
  (sh : Shell) : Completion Shell :=
  close outcome (_widget tab) sh.

(** [OpenTab.icon]. *)
Definition icon (tab : OpenTab) : LabIcon := fileIcon.

(** [OpenTab.label]. *)
Definition label (tab : OpenTab) : string :=
  title_label (widget_title (_widget tab)).

(** [OpenTab.labelTitle]. *)
Definition labelTitle (tab : OpenTab) : string :=
  match _widget tab with
  | MainArea {| context_path := Some path |} => path
  | widget => title_label (widget_title widget)
  end.

(** What happens to the signaler between two of its calls. *)
Inductive Action : Set :=
| ShellAdds (widget : Widget)
| ShellRemoves (widget : Widget)
| LayoutModified
| TitleChanged (t : TitleId)
| Running
| CleanUp.

Definition step (w : World) (a : Action) : World :=
  match a with
  | ShellAdds widget =>
      set_shell
        {| main := main (shell w) ++ [widget];
           activated := activated (shell w);
           close_calls := close_calls (shell w) |} w
  | ShellRemoves widget => set_shell (remove_widget widget (shell w)) w
  | LayoutModified => fire layoutModified w
  | TitleChanged t => fire (title_changed t) w
  | Running => snd (running w)
  | CleanUp => set_receivers (cleanup (receivers w)) w
  end.

(** The actions in which a sender emits a signal. *)
Definition is_notification (a : Action) : bool :=
  match a with
  | LayoutModified | TitleChanged _ => true
  | _ => false
  end.

(** The actions in which the shell says that its layout was modified. *)
Definition is_layout_change (a : Action) : bool :=
  match a with
  | LayoutModified => true
  | _ => false
  end.

(** The signaler is made for the shell [sh] and [actions] happen. *)
Definition run (sh : Shell) (actions : list Action) : World :=
  fold_left step actions (constructor sh).

End OpenTabs.

(** ** Widgets that are disposed

    Closing a tab disposes its widget. The title of a widget is made when
    it is first asked for and is forgotten when the widget is disposed:
    [widget.content.title] of a disposed widget is a new [Title], to
    which nothing is connected. What becomes of the connections to the old
    title depends on the version of [@lumino/widgets]: it leaves them, or
    it disposes the title and clears them. A disposed widget is not shown
    again, so that [running] does not meet it. *)

Module Lifetime.
Import Signaling OpenTabsSignaler OpenTabs.

Inductive TitleDisposal : Set :=
| TitleKept
| TitleCleared.

(** The world of the signaler and the titles whose widget was disposed. *)
Record World : Set := {
  base : OpenTabsSignaler.World;
  disposed : list TitleId
}.

Definition is_disposed (titles : list TitleId) (x : MainAreaWidget) : bool :=
  existsb (Nat.eqb (title_id (content_title x))) titles.

(** [widget.content.title.changed.disconnect(this._emitTabsChanged, this)],
    the title being read when the call is made: for a disposed widget it
    is the new title, the call finds no connection and changes nothing. *)
Definition disconnect_current (titles : list TitleId)
  (w : OpenTabsSignaler.World) (x : MainAreaWidget)
  : OpenTabsSignaler.World :=
  if is_disposed titles x then w
  else signal_disconnect (content_title_changed x) w.

(** [_emitTabsChanged]. *)
Definition _emitTabsChanged (lw : World) : World :=
  let w :=
    fold_left (disconnect_current (disposed lw)) (_widgets (base lw))
      (base lw) in
  let w := log ResetWidgets (set_widgets [] w) in
  {| base := log EmitTabsChanged w; disposed := disposed lw |}.

Definition fire (s : Signal) (lw : World) : World :=
  emit World (fun lw => receivers (base lw)) _emitTabsChanged s lw.

(** Every connection to [s] is cleared. *)
Definition clear_all (s : Signal) (receivers : list Connection)
  : list Connection :=
  map (fun c => if connected_to s c then None else c) receivers.

Definition has_title (t : TitleId) (widget : Widget) : bool :=
  match as_MainAreaWidget widget with
  | Some x => Nat.eqb (title_id (content_title x)) t
  | None => false
  end.

(** [x] is disposed: it leaves the shell, with its content, and its
    title is disposed or not. *)
Definition dispose (how : TitleDisposal) (x : MainAreaWidget) (lw : World)
  : World :=
  let t := title_id (content_title x) in
  let sh := remove_widget (MainArea x) (shell (base lw)) in
  let sh :=
    {| main := filter (fun y => negb (has_title t y)) (main sh);
       activated := activated sh;
       close_calls := close_calls sh |} in
  let rs :=
    match how with
    | TitleKept => receivers (base lw)
    | TitleCleared => clear_all (title_changed t) (receivers (base lw))
    end in
  {| base := set_receivers rs (set_shell sh (base lw));
     disposed := t :: disposed lw |}.

Inductive Action : Set :=
| Does (a : OpenTabs.Action)
| Disposes (x : MainAreaWidget).

Definition step (how : TitleDisposal) (lw : World) (a : Action) : World :=
  match a with
  | Does (ShellAdds widget) =>
      if existsb (fun t => has_title t widget) (disposed lw) then lw
      else {| base := OpenTabs.step (base lw) (ShellAdds widget);
              disposed := disposed lw |}
  | Does LayoutModified => fire layoutModified lw
  | Does (TitleChanged t) => fire (title_changed t) lw
  | Does a =>
      {| base := OpenTabs.step (base lw) a; disposed := disposed lw |}
  | Disposes x => dispose how x lw
  end.

Definition start (sh : Shell) : World :=
  {| base := constructor sh; disposed := [] |}.

Definition run (how : TitleDisposal) (sh : Shell) (actions : list Action)
  : World :=
  fold_left (step how) actions (start sh).

(** No widget is disposed while the signaler tracks it. *)
Fixpoint disposed_untracked (how : TitleDisposal) (lw : World)
  (actions : list Action) : bool :=
  match actions with
  | [] => true
  | a :: rest =>
      match a with
      | Disposes x => negb (is_disposed (tracked_titles (base lw)) x)
      | Does _ => true
      end
      && disposed_untracked how (step how lw a) rest
  end.

(** Between two calls, when no widget was disposed while it was tracked:
    the signaler is as it is without disposals, and neither a tracked
    widget nor a widget of the main area is disposed. *)
Record sound (lw : World) : Prop := {
  base_consistent : consistent (base lw);
  tracked_alive :
    forall x, In x (_widgets (base lw)) ->
              is_disposed (disposed lw) x = false;
  shown_alive :
    forall x, In (MainArea x) (main (shell (base lw))) ->
              is_disposed (disposed lw) x = false
}.

(** The changes of the titles [batch], one after the other. *)
Definition title_changes (batch : list TitleId) : list Action :=
  map (fun t => Does (TitleChanged t)) batch.

End Lifetime.

(** ** A shell with three widgets

    Two main-area widgets, the second one a document, and a widget of
    another class; used to run the code. *)

Module Sample.

Definition title (n : TitleId) (text : string) : Title :=
  {| title_id := n; title_label := text; title_icon := None |}.

Definition launcher : MainAreaWidget :=
  {| main_id := "launcher-0";
     main_title := title 1 "Launcher";
     content_title := title 11 "Launcher";
     context_path := None |}.

Definition notebook : MainAreaWidget :=
  {| main_id := "notebook-1";
     main_title :=
       {| title_id := 2; title_label := "analysis.ipynb";
          title_icon := Some notebookIcon |};
     content_title :=
       {| title_id := 12; title_label := "analysis.ipynb";
          title_icon := Some notebookIcon |};
     context_path := Some "work/analysis.ipynb" |}.

Definition inspector : Widget :=
  OtherWidget "inspector-2" (title 3 "Inspector").

Definition three_tabs : Shell :=
  {| main := [MainArea launcher; MainArea notebook; inspector];
     activated := [];
     close_calls := [] |}.

(** The [close] of the notebook throws; the other widgets close. *)
Definition notebook_throws (widget : Widget) : CloseOutcome :=
  if String.eqb (widget_id widget) "notebook-1" then Throws else Closes.

End Sample.

(** * Properties *)

(** ** Strings *)

Module JSFacts.
Import JS.

Lemma substring_at_prefix (pre sub post : string) :
  substring (String.length pre) (String.length sub) (pre ++ sub ++ post)%string
  = sub.
Proof.
  induction pre as [|c pre IH]; simpl.
  - induction sub as [|d sub IHs]; simpl.
    + destruct post; reflexivity.
    + now rewrite IHs.
  - exact IH.
Qed.

Lemma substring_is_prefix (s : string) :
  forall n, exists post, s = (substring 0 n s ++ post)%string.
Proof.
  induction s as [|c s IH]; intros [|n]; simpl.
  - now exists "".
  - now exists "".
  - now exists (String c s).
  - destruct (IH n) as (post & E). exists post. now rewrite <- E.
Qed.

Lemma substring_inside (s : string) :
  forall m n, exists pre post, s = (pre ++ substring m n s ++ post)%string.
Proof.
  induction s as [|c s IH]; intros [|m] n.
  - exists "", "". now destruct n.
  - now exists "", "".
  - destruct (substring_is_prefix (String c s) n) as (post & E).
    now exists "", post.
  - destruct (IH m n) as (pre & post & E).
    exists (String c pre), post. simpl. now rewrite <- E.
Qed.

(** [indexOf] finds [sub] exactly when [sub] occurs. *)
Lemma found_iff_contains (s sub : string) :
  sub <> "" -> found s sub = true <-> contains s sub.
Proof.
  intros Hsub. unfold found, indexOf, contains.
  destruct (index 0 sub s) as [i|] eqn:E.
  - split; [intros _|intros _].
    + apply index_correct1 in E.
      destruct (substring_inside s i (String.length sub)) as (pre & post & H).
      rewrite E in H. now exists pre, post.
    + destruct (Z.eqb_spec (Z.of_nat i) (-1)); [lia|reflexivity].
  - split; [discriminate|].
    intros (pre & post & ->). exfalso.
    apply (index_correct3 0 (String.length pre) _ _ E Hsub); [lia|].
    apply substring_at_prefix.
Qed.

Lemma found_false_iff (s sub : string) :
  sub <> "" -> found s sub = false <-> ~ contains s sub.
Proof.
  intros Hsub. rewrite <- (found_iff_contains s sub Hsub).
  destruct (found s sub); split; congruence.
Qed.

Lemma truthy_iff (s : string) : truthy s = true <-> s <> "".
Proof. destruct s; simpl; split; congruence. Qed.

Lemma or_else_empty (b : string) : or_else "" b = b.
Proof. reflexivity. Qed.

(** The lower-case mapping does nothing to a lower-case string. *)
Lemma toLowerCase_idempotent (s : string) :
  toLowerCase (toLowerCase s) = toLowerCase s.
Proof.
  induction s as [|c s IH]; simpl; [reflexivity|].
  rewrite IH. f_equal.
  destruct c as [[] [] [] [] [] [] [] []]; reflexivity.
Qed.

End JSFacts.

(** ** The running kernels *)

Module KernelsFacts.
Import Session Kernels JS JSFacts.

Lemma or_else_shown (basename : string -> string) (m : IModel) :
  or_else (name m) (basename (path m)) = shown basename m.
Proof. unfold shown. now destruct (name m). Qed.

Lemma dot_nonempty : "." <> "".
Proof. discriminate. Qed.

Lemma marker_nonempty : ".ipynb" <> "".
Proof. discriminate. Qed.

(** C3, as the code has it: the marker [.ipynb] is looked for in the name
    of the record, and in the base name of its path when the name is
    empty. A record that has it there is a notebook; otherwise a record
    whose type is [console] in any case is a console; every other record
    is a file. The marker is tested first: a console with the marker is a
    notebook. *)
Theorem icon_three_way_priority (basename : string -> string)
  (item : RunningKernel) :
  let m := _model item in
  let console := toLowerCase (type m) = "console" in
  (icon basename item = notebookIcon
   <-> contains (shown basename m) ".ipynb")
  /\ (icon basename item = consoleIcon
      <-> ~ contains (shown basename m) ".ipynb" /\ console)
  /\ (icon basename item = fileIcon
      <-> ~ contains (shown basename m) ".ipynb" /\ ~ console).
Proof.
  intros m console. subst console. unfold icon. fold m.
  rewrite or_else_shown.
  pose proof (found_iff_contains (shown basename m) ".ipynb" marker_nonempty)
    as Hfound.
  destruct (found (shown basename m) ".ipynb").
  - assert (Hc : contains (shown basename m) ".ipynb") by now apply Hfound.
    repeat split; try (intros; assumption); try discriminate;
      intros [Hn _]; contradiction.
  - assert (Hc : ~ contains (shown basename m) ".ipynb").
    { intros H. apply Hfound in H. discriminate. }
    destruct (String.eqb_spec (toLowerCase (type m)) "console") as [E|E].
    + repeat split; try discriminate; try assumption; try contradiction.
      intros [_ H]; contradiction.
    + repeat split; try discriminate; try assumption; try contradiction.
      intros [_ H]; contradiction.
Qed.

(** C3, as it is stated, fails: a record without a name whose path has
    the marker in a directory ([.ipynb_checkpoints/foo.py]) is a file for
    the code, which looks at the base name [foo.py]; and a console named
    [analysis] whose path is [analysis.ipynb] is a console for the code,
    which does not look at the path of a record that has a name. The
    marker is in the path of both. *)
Lemma icon_name_or_path_counterexample :
  let unnamed :=
    {| _model := {| id := "7"; name := "";
                    path := ".ipynb_checkpoints/foo.py";
                    type := "file"; kernel := Some "python3" |} |} in
  let named :=
    {| _model := {| id := "8"; name := "analysis";
                    path := "analysis.ipynb";
                    type := "console"; kernel := Some "python3" |} |} in
  (contains (path (_model unnamed)) ".ipynb"
   /\ icon PathExt.basename unnamed = fileIcon
   /\ icon_by_name_or_path unnamed = notebookIcon)
  /\ (contains (path (_model named)) ".ipynb"
      /\ icon PathExt.basename named = consoleIcon
      /\ icon_by_name_or_path named = notebookIcon).
Proof.
  repeat split.
  - now exists "", "_checkpoints/foo.py".
  - now exists "analysis", "".
Qed.

(** C4: [filterSessions] drops exactly the records without a name whose
    path has no dot in its base name; [running] holds an item for each of
    the other sessions and for no other; a record named [foo.ipynb] is
    kept and its item has the notebook icon. *)
Theorem filterSessions_drops_unnamed_undotted (basename : string -> string) :
  (forall m,
      filterSessions basename m = false
      <-> name m = "" /\ ~ contains (basename (path m)) ".")
  /\ (forall m,
      filterSessions basename m = false
      <-> ~ contains (shown basename m) "." /\ name m = "")
  /\ (forall sessions item,
      In item (running basename sessions)
      <-> In (_model item) sessions
          /\ (name (_model item) <> ""
              \/ contains (basename (path (_model item))) "."))
  /\ (forall i p t k,
      let m := {| id := i; name := "foo.ipynb"; path := p; type := t;
                  kernel := k |} in
      filterSessions basename m = true
      /\ running basename [m] = [ {| _model := m |} ]
      /\ icon basename {| _model := m |} = notebookIcon).
Proof.
  assert (Hdrop : forall m,
      filterSessions basename m = false
      <-> name m = "" /\ ~ contains (basename (path m)) ".").
  { intros m. unfold filterSessions.
    rewrite orb_false_iff, found_false_iff by exact dot_nonempty.
    destruct (name m) as [|c n]; simpl.
    - rewrite or_else_empty. intuition congruence.
    - intuition congruence. }
  split; [exact Hdrop|]. split; [|split].
  - intros m. rewrite Hdrop. unfold shown.
    destruct (String.eqb_spec (name m) "") as [E|E]; [tauto|].
    split; intros [H1 H2]; congruence.
  - intros sessions item. unfold running.
    rewrite in_map_iff. split.
    + intros (m & <- & Hin). apply filter_In in Hin as [Hin Hf]. simpl.
      split; [exact Hin|].
      destruct (string_dec (name m) "") as [E|E]; [|now left].
      right.
      destruct (found (basename (path m)) ".") eqn:F.
      * now apply found_iff_contains in F.
      * exfalso. apply found_false_iff in F; [|exact dot_nonempty].
        assert (filterSessions basename m = false) by now apply Hdrop.
        congruence.
    + intros [Hin Hkeep]. exists (_model item). split; [now destruct item|].
      apply filter_In. split; [exact Hin|].
      destruct (filterSessions basename (_model item)) eqn:F; [reflexivity|].
      apply Hdrop in F as [F1 F2]. destruct Hkeep; contradiction.
  - intros i p t k m. repeat split.
Qed.

(** C8: [open] runs one command, on the path of the record:
    [console:open] when the type is [console] in any case and
    [docmanager:open] for every other type; nothing but the type chooses
    between the two. *)
Theorem open_dispatches_on_type (item : RunningKernel) (app : App) :
  let m := _model item in
  (exists cmd,
      executed (open item app)
      = executed app ++ [ {| command := cmd; arg_path := path m |} ]
      /\ (cmd = "console:open" \/ cmd = "docmanager:open")
      /\ (cmd = "console:open" <-> toLowerCase (type m) = "console")
      /\ (cmd = "docmanager:open" <-> toLowerCase (type m) <> "console"))
  /\ (forall other app',
      toLowerCase (type (_model other)) = toLowerCase (type m) ->
      map command (skipn (length (executed app')) (executed (open other app')))
      = map command (skipn (length (executed app)) (executed (open item app)))).
Proof.
  intros m. split.
  - unfold open. fold m.
    destruct (String.eqb_spec (toLowerCase (type m)) "console") as [E|E].
    + exists "console:open". repeat split; auto; try discriminate.
      intros H; contradiction.
    + exists "docmanager:open". repeat split; auto; try discriminate.
      intros H; contradiction.
  - intros other app' E. unfold open. fold m. rewrite E.
    destruct (String.eqb (toLowerCase (type m)) "console"); simpl;
      rewrite !skipn_app, !skipn_all, !Nat.sub_diag; reflexivity.
Qed.

Lemma open_dispatches_on_type_witness :
  let console :=
    {| _model := {| id := "3"; name := "Console 1"; path := "console-1-ab";
                    type := "Console"; kernel := Some "python3" |} |} in
  let other :=
    {| _model := {| id := "4"; name := ""; path := "untitled";
                    type := "CONSOLE"; kernel := None |} |} in
  map command (executed (open other {| executed := [] |}))
  = ["console:open"].
Proof.
  intros console other.
  exact (proj2 (open_dispatches_on_type console {| executed := [] |})
           other {| executed := [] |} eq_refl).
Defined.

End KernelsFacts.

(** ** The signal library *)

Module SignalingFacts.
Import Signaling.

Lemma signal_eqb_spec (a b : Signal) : reflect (a = b) (signal_eqb a b).
Proof.
  destruct a as [|t], b as [|u]; simpl; try (constructor; congruence).
  destruct (Nat.eqb_spec t u); constructor; congruence.
Qed.

Lemma connected_to_iff (s : Signal) (c : Connection) :
  connected_to s c = true <-> c = Some s.
Proof.
  destruct c as [s'|]; simpl; [|split; discriminate].
  destruct (signal_eqb_spec s' s); split; congruence.
Qed.

Lemma connected_to_false_iff (s : Signal) (c : Connection) :
  connected_to s c = false <-> c <> Some s.
Proof.
  rewrite <- connected_to_iff. destruct (connected_to s c); split; congruence.
Qed.

Lemma findConnection_iff (s : Signal) (receivers : list Connection) :
  findConnection receivers s = true <-> In (Some s) receivers.
Proof.
  unfold findConnection. rewrite existsb_exists. split.
  - intros (c & Hin & Hc). apply connected_to_iff in Hc. now subst.
  - intros Hin. exists (Some s). split; [exact Hin|].
    now apply connected_to_iff.
Qed.

Lemma findConnection_live (s : Signal) (receivers : list Connection) :
  findConnection receivers s = true <-> live s receivers > 0.
Proof.
  rewrite findConnection_iff. apply count_occ_In.
Qed.

Lemma findConnection_dead (s : Signal) (receivers : list Connection) :
  findConnection receivers s = false <-> live s receivers = 0.
Proof.
  pose proof (findConnection_live s receivers) as [H1 H2].
  destruct (findConnection receivers s).
  - split; [discriminate|]. intros E. specialize (H1 eq_refl). lia.
  - split; [|reflexivity]. intros _.
    destruct (live s receivers); [reflexivity|].
    assert (false = true) by (apply H2; lia). discriminate.
Qed.

Lemma live_app (s : Signal) (a b : list Connection) :
  live s (a ++ b) = live s a + live s b.
Proof. apply count_occ_app. Qed.

Lemma live_cons (s : Signal) (c : Connection) (rest : list Connection) :
  live s (c :: rest) = (if connected_to s c then 1 else 0) + live s rest.
Proof.
  unfold live. simpl.
  destruct (connection_eq_dec c (Some s)) as [E|E].
  - apply connected_to_iff in E. now rewrite E.
  - apply connected_to_false_iff in E. now rewrite E.
Qed.

(** [connect] adds a connection to [s] when there is none, and only then. *)
Lemma live_connect (s s' : Signal) (receivers : list Connection) :
  live s' (snd (connect s receivers))
  = if signal_eqb s s' then Nat.max 1 (live s' receivers)
    else live s' receivers.
Proof.
  unfold connect.
  destruct (findConnection receivers s) eqn:F; simpl.
  - destruct (signal_eqb_spec s s') as [->|]; [|reflexivity].
    apply findConnection_live in F.
    destruct (live s' receivers); [lia|reflexivity].
  - rewrite live_app, live_cons. unfold live at 2. simpl.
    destruct (signal_eqb_spec s s') as [->|N].
    + apply findConnection_dead in F. rewrite F. reflexivity.
    + lia.
Qed.

Lemma live_clear_first (s s' : Signal) (receivers : list Connection) :
  live s' (clear_first s receivers)
  = if signal_eqb s s' then Nat.pred (live s' receivers)
    else live s' receivers.
Proof.
  induction receivers as [|c rest IH]; simpl.
  - now destruct (signal_eqb s s').
  - destruct (connected_to s c) eqn:C.
    + apply connected_to_iff in C. subst c. rewrite !live_cons. simpl.
      destruct (signal_eqb_spec s s') as [->|N].
      * destruct (signal_eqb_spec s' s'); [reflexivity|congruence].
      * reflexivity.
    + rewrite !live_cons, IH.
      destruct (signal_eqb_spec s s') as [->|N]; [|reflexivity].
      rewrite C. reflexivity.
Qed.

(** [disconnect] removes one connection to [s], when there is one. *)
Lemma live_disconnect (s s' : Signal) (receivers : list Connection) :
  live s' (snd (disconnect s receivers))
  = if signal_eqb s s' then Nat.pred (live s' receivers)
    else live s' receivers.
Proof.
  unfold disconnect.
  destruct (findConnection receivers s) eqn:F; simpl.
  - apply live_clear_first.
  - destruct (signal_eqb_spec s s') as [->|]; [|reflexivity].
    apply findConnection_dead in F. now rewrite F.
Qed.

Lemma live_cleanup (s : Signal) (receivers : list Connection) :
  live s (cleanup receivers) = live s receivers.
Proof.
  induction receivers as [|c rest IH]; [reflexivity|].
  simpl. destruct c as [s'|].
  - rewrite !live_cons. now rewrite IH.
  - rewrite live_cons. simpl. exact IH.
Qed.

Lemma faded_refl (receivers : list Connection) : faded receivers receivers.
Proof. induction receivers; constructor; auto. Qed.

Lemma faded_trans (a b c : list Connection) :
  faded a b -> faded b c -> faded a c.
Proof.
  intros Hab. revert c.
  induction Hab as [|x y a b Hxy Hab IH]; intros c Hbc; inversion Hbc; subst.
  - constructor.
  - constructor; [|now apply IH].
    destruct Hxy as [->| ->]; [assumption|].
    right. destruct H1; congruence.
Qed.

Lemma faded_clear_first (s : Signal) (receivers : list Connection) :
  faded receivers (clear_first s receivers).
Proof.
  induction receivers as [|c rest IH]; simpl; [constructor|].
  destruct (connected_to s c).
  - constructor; [now right|apply faded_refl].
  - constructor; [now left|exact IH].
Qed.

Lemma faded_disconnect (s : Signal) (receivers : list Connection) :
  faded receivers (snd (disconnect s receivers)).
Proof.
  unfold disconnect. destruct (findConnection receivers s); simpl.
  - apply faded_clear_first.
  - apply faded_refl.
Qed.

(** A connection that is live after was the same connection before. *)
Lemma faded_nth (a b : list Connection) (i : nat) (s : Signal) :
  faded a b -> nth_error b i = Some (Some s) -> nth_error a i = Some (Some s).
Proof.
  intros H. revert i.
  induction H as [|x y a b Hxy Hab IH]; intros [|i]; simpl; try discriminate.
  - intros E. injection E as E. subst y.
    destruct Hxy as [H|H]; [now rewrite <- H|discriminate].
  - apply IH.
Qed.

(** With one connection to [s], the receivers split around it. *)
Lemma live_one_split (s : Signal) (receivers : list Connection) :
  live s receivers = 1 ->
  exists pre post,
    receivers = pre ++ Some s :: post
    /\ ~ In (Some s) pre /\ ~ In (Some s) post.
Proof.
  intros H.
  assert (Hin : In (Some s) receivers).
  { apply (count_occ_In connection_eq_dec). unfold live in H. lia. }
  destruct (in_split _ _ Hin) as (pre & post & ->).
  exists pre, post. split; [reflexivity|].
  rewrite live_app, live_cons in H.
  assert (C : connected_to s (Some s) = true) by now apply connected_to_iff.
  rewrite C in H.
  split; intros Hin'; apply (count_occ_In connection_eq_dec) in Hin';
    unfold live in H; lia.
Qed.

Section EmitFacts.

Variable W : Type.
Variable receivers_of : W -> list Connection.
Variable slot : W -> W.

Lemma emit_loop_app (s : Signal) (a b : list nat) (w : W) :
  emit_loop W receivers_of slot s (a ++ b) w
  = emit_loop W receivers_of slot s b (emit_loop W receivers_of slot s a w).
Proof.
  revert w. induction a as [|i a IH]; intros w; simpl; [reflexivity|].
  apply IH.
Qed.

(** The loop does nothing on indices that hold no connection to [s]. *)
Lemma emit_loop_skip (s : Signal) (indices : list nat) (w : W) :
  (forall i, In i indices -> nth_error (receivers_of w) i <> Some (Some s)) ->
  emit_loop W receivers_of slot s indices w = w.
Proof.
  induction indices as [|i rest IH]; intros H; simpl; [reflexivity|].
  assert (Hi : nth_error (receivers_of w) i <> Some (Some s))
    by (apply H; now left).
  destruct (nth_error (receivers_of w) i) as [c|] eqn:E.
  - destruct (connected_to s c) eqn:C.
    + apply connected_to_iff in C. subst c. now elim Hi.
    + apply IH. intros j Hj. apply H. now right.
  - apply IH. intros j Hj. apply H. now right.
Qed.

(** A signal without a connection: [emit] invokes nothing. *)
Lemma emit_unconnected (s : Signal) (w : W) :
  ~ In (Some s) (receivers_of w) ->
  emit W receivers_of slot s w = w.
Proof.
  intros H. apply emit_loop_skip. intros i _ E.
  apply H. exact (nth_error_In _ _ E).
Qed.

(** A signal with one connection, and a slot that only disconnects:
    [emit] invokes the slot once. *)
Lemma emit_connected_once (s : Signal) (w : W) :
  live s (receivers_of w) = 1 ->
  faded (receivers_of w) (receivers_of (slot w)) ->
  emit W receivers_of slot s w = slot w.
Proof.
  intros Hlive Hfaded.
  destruct (live_one_split s _ Hlive) as (pre & post & E & Hpre & Hpost).
  unfold emit. rewrite E at 1.
  rewrite length_app. simpl length.
  replace (length pre + S (length post))
    with (length pre + (1 + length post)) by lia.
  rewrite seq_app, emit_loop_app.
  assert (Hskip : emit_loop W receivers_of slot s (seq 0 (length pre)) w = w).
  { apply emit_loop_skip. intros i Hi Hnth. apply in_seq in Hi.
    rewrite E in Hnth. rewrite nth_error_app1 in Hnth by lia.
    apply Hpre. exact (nth_error_In _ _ Hnth). }
  rewrite Hskip. simpl.
  assert (Hat : nth_error (receivers_of w) (length pre) = Some (Some s)).
  { rewrite E, nth_error_app2, Nat.sub_diag by lia. reflexivity. }
  rewrite Hat.
  assert (C : connected_to s (Some s) = true) by now apply connected_to_iff.
  rewrite C. apply emit_loop_skip.
  intros i Hi Hnth. apply in_seq in Hi.
  apply (faded_nth _ _ _ _ Hfaded) in Hnth.
  rewrite E in Hnth.
  rewrite nth_error_app2 in Hnth by lia.
  destruct (i - length pre) as [|k] eqn:K; [lia|].
  simpl in Hnth. apply Hpost. exact (nth_error_In _ _ Hnth).
Qed.

End EmitFacts.

End SignalingFacts.

(** ** The signaler *)

Module SignalerFacts.
Import Signaling SignalingFacts OpenTabsSignaler.

Lemma live_title_of_consistent (w : World) (t : TitleId) :
  consistent w -> live (title_changed t) (receivers w) <= 1.
Proof.
  intros C. destruct (in_dec Nat.eq_dec t (tracked_titles w)) as [H|H].
  - rewrite (tracked_connected w C t H). lia.
  - rewrite (untracked_unconnected w C t H). lia.
Qed.

Lemma subscribed_iff_live (s : Signal) (w : World) :
  subscribed s w = true <-> live s (receivers w) > 0.
Proof. apply findConnection_live. Qed.

Lemma subscribed_false_iff (s : Signal) (w : World) :
  subscribed s w = false <-> live s (receivers w) = 0.
Proof. apply findConnection_dead. Qed.

(** *** The loop of the handler *)

Lemma disconnect_all_frame (widgets : list MainAreaWidget) (w : World) :
  shell (disconnect_all widgets w) = shell w
  /\ _widgets (disconnect_all widgets w) = _widgets w
  /\ trace (disconnect_all widgets w)
     = trace w ++ map (fun x => Disconnect (content_title_changed x)) widgets.
Proof.
  revert w. induction widgets as [|x rest IH]; intros w; simpl.
  - now rewrite app_nil_r.
  - destruct (IH (signal_disconnect (content_title_changed x) w))
      as (Hs & Hw & Ht).
    unfold disconnect_all in *. rewrite Hs, Hw, Ht. simpl.
    now rewrite <- app_assoc.
Qed.

Lemma disconnect_all_faded (widgets : list MainAreaWidget) (w : World) :
  faded (receivers w) (receivers (disconnect_all widgets w)).
Proof.
  revert w. induction widgets as [|x rest IH]; intros w; simpl.
  - apply faded_refl.
  - eapply faded_trans; [|apply IH]. simpl. apply faded_disconnect.
Qed.

Lemma disconnect_all_layout (widgets : list MainAreaWidget) (w : World) :
  live layoutModified (receivers (disconnect_all widgets w))
  = live layoutModified (receivers w).
Proof.
  revert w. induction widgets as [|x rest IH]; intros w; simpl.
  - reflexivity.
  - unfold disconnect_all in IH. rewrite IH. simpl.
    now rewrite live_disconnect.
Qed.

Lemma disconnect_all_decreases (widgets : list MainAreaWidget) (w : World)
  (t : TitleId) :
  live (title_changed t) (receivers (disconnect_all widgets w))
  <= live (title_changed t) (receivers w).
Proof.
  revert w. induction widgets as [|x rest IH]; intros w; simpl.
  - lia.
  - unfold disconnect_all in IH. etransitivity; [apply IH|]. simpl.
    rewrite live_disconnect.
    destruct (signal_eqb _ _); lia.
Qed.

Lemma disconnect_all_disconnects (widgets : list MainAreaWidget) (w : World)
  (t : TitleId) :
  In t (map (fun x => title_id (content_title x)) widgets) ->
  live (title_changed t) (receivers (disconnect_all widgets w))
  <= Nat.pred (live (title_changed t) (receivers w)).
Proof.
  revert w. induction widgets as [|x rest IH]; intros w; simpl.
  - contradiction.
  - intros [E|Hin].
    + etransitivity; [apply (disconnect_all_decreases rest)|]. simpl.
      rewrite live_disconnect. unfold content_title_changed. rewrite E.
      destruct (signal_eqb_spec (title_changed t) (title_changed t));
        [lia|congruence].
    + unfold disconnect_all in IH. etransitivity; [apply (IH _ Hin)|]. simpl.
      rewrite live_disconnect.
      destruct (signal_eqb _ _); lia.
Qed.

(** *** The handler *)

Lemma handler_frame (w : World) :
  shell (_emitTabsChanged w) = shell w
  /\ _widgets (_emitTabsChanged w) = []
  /\ receivers (_emitTabsChanged w)
     = receivers (disconnect_all (_widgets w) w)
  /\ trace (_emitTabsChanged w)
     = trace w
       ++ map (fun x => Disconnect (content_title_changed x)) (_widgets w)
       ++ [ResetWidgets; EmitTabsChanged].
Proof.
  destruct (disconnect_all_frame (_widgets w) w) as (Hs & Hw & Ht).
  unfold _emitTabsChanged. simpl. rewrite Hs, Ht.
  repeat split. now rewrite <- !app_assoc.
Qed.

Lemma handler_emits_once (w : World) :
  emissions (_emitTabsChanged w) = S (emissions w).
Proof.
  destruct (handler_frame w) as (_ & _ & _ & Ht).
  unfold emissions. rewrite Ht, !filter_app, !length_app. simpl.
  assert (H : forall l,
    filter is_emission
      (map (fun x => Disconnect (content_title_changed x)) l) = []).
  { induction l; simpl; auto. }
  rewrite H. simpl. lia.
Qed.

Lemma handler_faded (w : World) :
  faded (receivers w) (receivers (_emitTabsChanged w)).
Proof.
  destruct (handler_frame w) as (_ & _ & -> & _).
  apply disconnect_all_faded.
Qed.

(** After the handler no title is listened to. *)
Lemma handler_unsubscribes (w : World) (t : TitleId) :
  consistent w ->
  live (title_changed t) (receivers (_emitTabsChanged w)) = 0.
Proof.
  intros C. destruct (handler_frame w) as (_ & _ & -> & _).
  destruct (in_dec Nat.eq_dec t (tracked_titles w)) as [H|H].
  - pose proof (disconnect_all_disconnects (_widgets w) w t H).
    pose proof (live_title_of_consistent w t C). lia.
  - pose proof (disconnect_all_decreases (_widgets w) w t).
    rewrite (untracked_unconnected w C t H) in *. lia.
Qed.

Lemma handler_consistent (w : World) :
  consistent w -> consistent (_emitTabsChanged w).
Proof.
  intros C. split.
  - destruct (handler_frame w) as (_ & _ & -> & _).
    rewrite disconnect_all_layout. apply (layout_connected w C).
  - unfold tracked_titles.
    destruct (handler_frame w) as (_ & -> & _ & _). contradiction.
  - intros t _. now apply handler_unsubscribes.
Qed.

(** *** Emitting a signal of the shell or of a title *)

Lemma fire_connected (s : Signal) (w : World) :
  live s (receivers w) = 1 -> fire s w = _emitTabsChanged w.
Proof.
  intros H. apply emit_connected_once; [exact H|apply handler_faded].
Qed.

Lemma fire_unconnected (s : Signal) (w : World) :
  live s (receivers w) = 0 -> fire s w = w.
Proof.
  intros H. apply emit_unconnected.
  now apply (count_occ_not_In connection_eq_dec).
Qed.

Lemma fire_consistent (s : Signal) (w : World) :
  consistent w -> consistent (fire s w).
Proof.
  intros C.
  assert (H : live s (receivers w) = 1 \/ live s (receivers w) = 0).
  { destruct s as [|t].
    - left. apply (layout_connected w C).
    - pose proof (live_title_of_consistent w t C). lia. }
  destruct H as [H|H].
  - rewrite (fire_connected s w H). now apply handler_consistent.
  - now rewrite (fire_unconnected s w H).
Qed.

(** *** Adding a widget *)

Lemma addWidget_consistent (widget : Widget) (w : World) :
  consistent w -> consistent (addWidget widget w).
Proof.
  intros C. unfold addWidget.
  destruct (as_MainAreaWidget widget) as [x|]; [|exact C].
  split; simpl.
  - rewrite live_connect. simpl. apply (layout_connected w C).
  - intros t. unfold tracked_titles. simpl. rewrite map_app, in_app_iff.
    rewrite live_connect. unfold content_title_changed.
    destruct (signal_eqb_spec (title_changed (title_id (content_title x)))
                (title_changed t)) as [E|N].
    + intros _. pose proof (live_title_of_consistent w t C).
      destruct (live (title_changed t) (receivers w)) as [|[|n]];
        simpl; lia.
    + intros [H|[H|[]]].
      * now apply (tracked_connected w C).
      * congruence.
  - intros t. unfold tracked_titles. simpl. rewrite map_app, in_app_iff.
    rewrite live_connect. unfold content_title_changed.
    intros H.
    destruct (signal_eqb_spec (title_changed (title_id (content_title x)))
                (title_changed t)) as [E|N].
    + exfalso. apply H. right. left. congruence.
    + apply (untracked_unconnected w C). intros Hin. apply H. now left.
Qed.

Lemma constructor_consistent (sh : Shell) : consistent (constructor sh).
Proof.
  split; simpl.
  - reflexivity.
  - intros t [].
  - reflexivity.
Qed.

End SignalerFacts.

(** ** The open tabs *)

Module OpenTabsFacts.
Import Signaling SignalingFacts OpenTabsSignaler SignalerFacts OpenTabs.

Lemma addWidget_frame (widget : Widget) (w : World) :
  shell (addWidget widget w) = shell w
  /\ emissions (addWidget widget w) = emissions w
  /\ _widgets (addWidget widget w)
     = _widgets w ++ main_area_widgets [widget].
Proof.
  unfold addWidget. simpl.
  destruct (as_MainAreaWidget widget) as [x|]; simpl.
  - repeat split. unfold emissions. simpl.
    rewrite filter_app, length_app. simpl. lia.
  - now rewrite app_nil_r.
Qed.

Lemma running_map_spec (widgets : list Widget) (w : World) :
  fst (running_map widgets w) = map (fun x => {| _widget := x |}) widgets
  /\ shell (snd (running_map widgets w)) = shell w
  /\ emissions (snd (running_map widgets w)) = emissions w
  /\ _widgets (snd (running_map widgets w))
     = _widgets w ++ main_area_widgets widgets
  /\ (consistent w -> consistent (snd (running_map widgets w))).
Proof.
  revert w. induction widgets as [|widget rest IH]; intros w.
  - simpl. rewrite app_nil_r. auto.
  - simpl. destruct (IH (addWidget widget w)) as (Hf & Hs & He & Hw & Hc).
    destruct (running_map rest (addWidget widget w)) as [tabs w'] eqn:R.
    simpl in *.
    destruct (addWidget_frame widget w) as (As & Ae & Aw).
    rewrite Hf, Hs, He, Hw, As, Ae, Aw.
    split; [reflexivity|]. split; [reflexivity|]. split; [reflexivity|].
    split.
    + rewrite <- app_assoc. f_equal. simpl.
      now destruct (as_MainAreaWidget widget).
    + intros C. apply Hc. now apply addWidget_consistent.
Qed.



Lemma step_consistent (w : World) (a : Action) :
  consistent w -> consistent (step w a).
Proof.
  intros C. destruct a; simpl.
  - destruct C; split; assumption.
  - destruct C; split; assumption.
  - now apply fire_consistent.
  - now apply fire_consistent.
  - now apply running_map_spec.
  - destruct C as [C1 C2 C3]. split; simpl.
    + now rewrite live_cleanup.
    + intros t H. rewrite live_cleanup. now apply C2.
    + intros t H. rewrite live_cleanup. now apply C3.
Qed.

Lemma steps_consistent (actions : list Action) (w : World) :
  consistent w -> consistent (fold_left step actions w).
Proof.
  revert w. induction actions as [|a rest IH]; intros w C; simpl.
  - exact C.
  - apply IH. now apply step_consistent.
Qed.

Lemma run_consistent (sh : Shell) (actions : list Action) :
  consistent (run sh actions).
Proof. apply steps_consistent, constructor_consistent. Qed.

(** Title changes that reach a signaler listening to no title. *)
Lemma title_changes_unheard (batch : list TitleId) (w : World) :
  (forall t, live (title_changed t) (receivers w) = 0) ->
  fold_left step (map TitleChanged batch) w = w.
Proof.
  intros H. induction batch as [|t rest IH]; simpl; [reflexivity|].
  now rewrite (fire_unconnected _ w (H t)).
Qed.


Lemma tracked_title_in (w : World) (x : MainAreaWidget) :
  In x (_widgets w) -> In (title_id (content_title x)) (tracked_titles w).
Proof.
  intros H. unfold tracked_titles.
  exact (in_map (fun x => title_id (content_title x)) _ _ H).
Qed.


(** C2: whatever happened to the shell and to the signaler before, the
    signaler emits [tabsChanged] once when the layout of the shell is
    modified. *)
Theorem layout_modified_emits_once (sh : Shell) (actions : list Action) :
  emissions (step (run sh actions) LayoutModified)
  = S (emissions (run sh actions)).
Proof.
  simpl. rewrite fire_connected.
  - apply handler_emits_once.
  - apply (layout_connected _ (run_consistent sh actions)).
Qed.

(** C6, as the code has it: a main-area widget added twice is twice in
    [_widgets] and [connect] is called twice, but the signal library keeps
    one connection; a change of the title then runs the handler once and
    [tabsChanged] is emitted once. *)
Theorem widget_added_twice_emits_once (sh : Shell) (actions : list Action)
  (x : MainAreaWidget) :
  let w := run sh actions in
  let w2 := addWidget (MainArea x) (addWidget (MainArea x) w) in
  let s := content_title_changed x in
  _widgets w2 = _widgets w ++ [x; x]
  /\ trace w2 = trace w ++ [Connect s; Connect s]
  /\ live s (receivers w2) = 1
  /\ fire s w2 = _emitTabsChanged w2
  /\ emissions (fire s w2) = S (emissions w2)
  /\ subscribed s (fire s w2) = false.
Proof.
  intros w w2 s.
  assert (C2 : consistent w2).
  { apply addWidget_consistent, addWidget_consistent, run_consistent. }
  assert (Hw : _widgets w2 = _widgets w ++ [x; x]).
  { unfold w2. simpl. now rewrite <- app_assoc. }
  assert (Hlive : live s (receivers w2) = 1).
  { apply (tracked_connected w2 C2). unfold tracked_titles. rewrite Hw.
    apply in_map with (f := fun x => title_id (content_title x)).
    apply in_or_app. right. now left. }
  split; [exact Hw|].
  split; [unfold w2; simpl; now rewrite <- app_assoc|].
  split; [exact Hlive|].
  split; [now apply fire_connected|].
  rewrite (fire_connected s w2 Hlive).
  split; [apply handler_emits_once|].
  apply subscribed_false_iff. now apply handler_unsubscribes.
Qed.

(** C6, as it is stated, fails: the launcher is added twice to a new
    signaler; it is in [_widgets] twice and there is one connection to its
    title; the change of the title makes one emission, not two. *)
Lemma widget_added_twice_counterexample :
  let w := constructor Sample.three_tabs in
  let w2 :=
    addWidget (MainArea Sample.launcher)
      (addWidget (MainArea Sample.launcher) w) in
  _widgets w2 = [Sample.launcher; Sample.launcher]
  /\ receivers w2 = [Some layoutModified; Some (title_changed 11)]
  /\ emissions w2 = 0
  /\ emissions (fire (title_changed 11) w2) = 1
  /\ emissions (fire (title_changed 11) w2) <> 2.
Proof.
  repeat split. discriminate.
Qed.

(** C7: [addWidget] tracks a widget exactly when it is a
    [MainAreaWidget]: it is then connected to the title of its content
    and put at the end of [_widgets]; for a widget of another class
    nothing changes. *)
Theorem addWidget_tracks_main_area_widgets (widget : Widget) (w : World) :
  match as_MainAreaWidget widget with
  | Some x =>
      _widgets (addWidget widget w) = _widgets w ++ [x]
      /\ subscribed (content_title_changed x) (addWidget widget w) = true
      /\ receivers (addWidget widget w)
         = snd (connect (content_title_changed x) (receivers w))
  | None => addWidget widget w = w
  end
  /\ ((exists x, widget = MainArea x)
      <-> _widgets (addWidget widget w) <> _widgets w).
Proof.
  split.
  - unfold addWidget. destruct (as_MainAreaWidget widget) as [x|]; simpl.
    + repeat split. unfold subscribed. simpl. unfold connect.
      destruct (findConnection (receivers w) (content_title_changed x)) eqn:F.
      * exact F.
      * simpl. apply findConnection_iff, in_or_app. right. now left.
    + reflexivity.
  - destruct (addWidget_frame widget w) as (_ & _ & ->).
    destruct widget as [i t|x]; simpl.
    + rewrite app_nil_r. split; [intros (x & H); discriminate|congruence].
    + split; [|now exists x]. intros _ H.
      apply (f_equal (@length _)) in H. rewrite length_app in H.
      simpl in H. lia.
Qed.

(** *** The order of the events *)







(** C10: the icon of an open tab is the file icon, whatever the widget:
    its class, its title and the icon of its title do not count, and no
    item of [running] has the notebook icon or the console icon. *)
Theorem open_tab_icon_is_file_icon (w : World) :
  (forall tab, icon tab = fileIcon)
  /\ Forall (fun tab => icon tab = fileIcon
                       /\ icon tab <> notebookIcon
                       /\ icon tab <> consoleIcon)
       (fst (running w))
  /\ title_icon (main_title Sample.notebook) = Some notebookIcon
  /\ icon {| _widget := MainArea Sample.notebook |} = fileIcon.
Proof.
  split; [reflexivity|]. split; [|split; reflexivity].
  apply Forall_forall. intros tab _. repeat split; discriminate.
Qed.

(** *** Shutting all tabs down *)

Lemma forEach_close_calls (outcome : Widget -> CloseOutcome)
  (widgets : list Widget) (sh : Shell) :
  close_calls (state_of (forEach (close outcome) widgets sh))
  = close_calls sh ++ map widget_id (reached outcome widgets).
Proof.
  revert sh. induction widgets as [|x rest IH]; intros sh; simpl.
  - now rewrite app_nil_r.
  - unfold close at 1. destruct (outcome x); simpl.
    + rewrite IH. simpl. now rewrite <- app_assoc.
    + rewrite IH. simpl. now rewrite <- app_assoc.
    + reflexivity.
Qed.

Lemma forEach_close_returns (outcome : Widget -> CloseOutcome)
  (widgets : list Widget) (sh : Shell) :
  returns (forEach (close outcome) widgets sh) = true
  <-> forall x, In x widgets -> outcome x <> Throws.
Proof.
  revert sh. induction widgets as [|x rest IH]; intros sh; simpl.
  - split; [intros _ x []|reflexivity].
  - unfold close at 1. destruct (outcome x) eqn:E; simpl.
    + rewrite IH. split; [intros H y [<-|Hy]; [congruence|auto]|auto].
    + rewrite IH. split; [intros H y [<-|Hy]; [congruence|auto]|auto].
    + split; [discriminate|]. intros H. exfalso. apply (H x); auto.
Qed.

Lemma reached_all (outcome : Widget -> CloseOutcome) (widgets : list Widget) :
  (forall x, In x widgets -> outcome x <> Throws) ->
  reached outcome widgets = widgets.
Proof.
  induction widgets as [|x rest IH]; intros H; simpl; [reflexivity|].
  assert (Hx : outcome x <> Throws) by (apply H; now left).
  rewrite IH by (intros y Hy; apply H; now right).
  now destruct (outcome x).
Qed.

Lemma reached_until (outcome : Widget -> CloseOutcome)
  (before after : list Widget) (x : Widget) :
  (forall y, In y before -> outcome y <> Throws) ->
  outcome x = Throws ->
  reached outcome (before ++ x :: after) = before ++ [x].
Proof.
  induction before as [|y before IH]; intros H Hx; simpl.
  - now rewrite Hx.
  - assert (Hy : outcome y <> Throws) by (apply H; now left).
    rewrite IH by (auto; intros z Hz; apply H; now right).
    now destruct (outcome y).
Qed.

(** C5, as the code has it: [shutdownAll] of the open tabs calls [close]
    on the widgets of the main area in their order and stops at the first
    call that throws. A widget that stays open does not stop it: when no
    call throws, every widget is reached and [shutdownAll] returns. When
    the call on a widget throws, the widgets before it and that widget
    are reached, those after it are not, and [shutdownAll] throws. The
    [shutdownAll] of the kernels is one call of the [shutdownAll] of the
    session manager. *)
Theorem shutdownAll_stops_at_first_throw (outcome : Widget -> CloseOutcome)
  (sh : Shell) :
  close_calls (state_of (shutdownAll outcome sh))
  = close_calls sh ++ map widget_id (reached outcome (main sh))
  /\ (returns (shutdownAll outcome sh) = true
      <-> forall x, In x (main sh) -> outcome x <> Throws)
  /\ ((forall x, In x (main sh) -> outcome x <> Throws) ->
      reached outcome (main sh) = main sh)
  /\ (forall before x after,
      main sh = before ++ x :: after ->
      (forall y, In y before -> outcome y <> Throws) ->
      outcome x = Throws ->
      reached outcome (main sh) = before ++ [x])
  /\ (forall (Manager : Type) (manager_shutdownAll : Manager -> Manager)
             (manager : Manager),
      Kernels.shutdownAll Manager manager_shutdownAll manager
      = manager_shutdownAll manager).
Proof.
  split; [apply forEach_close_calls|].
  split; [apply forEach_close_returns|].
  split; [apply reached_all|].
  split; [|reflexivity].
  intros before x after ->. apply reached_until.
Qed.

(** C5, as it is stated, fails: of three tabs the second throws on
    [close]; the first is closed, the call on the second is made, and the
    third is not reached: it is not closed and stays in the main area. *)
Lemma shutdownAll_second_throws_counterexample :
  let result := shutdownAll Sample.notebook_throws Sample.three_tabs in
  returns result = false
  /\ close_calls (state_of result) = ["launcher-0"; "notebook-1"]
  /\ ~ In "inspector-2" (close_calls (state_of result))
  /\ main (state_of result) = [MainArea Sample.notebook; Sample.inspector].
Proof.
  repeat split. simpl. intros [H|[H|[]]]; discriminate.
Qed.

End OpenTabsFacts.

(** ** More on the running kernels *)

Module KernelsMore.
Import Session Kernels JS JSFacts.

Lemma found_in_empty : found "" "." = false.
Proof. reflexivity. Qed.

Lemma marker_has_dot (s : string) : contains s ".ipynb" -> contains s ".".
Proof.
  intros (pre & post & ->). now exists pre, ("ipynb" ++ post)%string.
Qed.

(** The items of [running] are the sessions that pass [filterSessions],
    in the order of the manager, and each of them has a label that is not
    empty. *)
Theorem listed_kernels_have_labels (basename : string -> string)
  (sessions : list IModel) :
  map _model (running basename sessions)
  = filter (filterSessions basename) sessions
  /\ Forall (fun item => label basename item <> "")
       (running basename sessions).
Proof.
  split.
  - unfold running. rewrite map_map. simpl. apply map_id.
  - apply Forall_forall. intros item Hin. unfold running in Hin.
    apply in_map_iff in Hin as (m & <- & Hm).
    apply filter_In in Hm as [_ Hf].
    unfold label, filterSessions in *. simpl.
    destruct (name m) as [|c n]; [|discriminate].
    rewrite or_else_empty in *. simpl in Hf. rewrite orb_false_r in Hf.
    intros E. rewrite E, found_in_empty in Hf. discriminate.
Qed.

(** A session whose item would have the notebook icon passes
    [filterSessions]: the filter drops no notebook. *)
Theorem notebooks_pass_the_filter (basename : string -> string)
  (item : RunningKernel) :
  icon basename item = notebookIcon ->
  filterSessions basename (_model item) = true.
Proof.
  unfold icon, filterSessions.
  set (shown := or_else (name (_model item)) (basename (path (_model item)))).
  destruct (found shown ".ipynb") eqn:F.
  - intros _. apply orb_true_iff. left.
    apply found_iff_contains; [discriminate|].
    apply marker_has_dot. apply found_iff_contains in F; [exact F|discriminate].
  - destruct (String.eqb _ _); discriminate.
Qed.

Lemma notebooks_pass_the_filter_witness :
  filterSessions PathExt.basename
    {| id := "5"; name := ""; path := "work/report.ipynb";
       type := "notebook"; kernel := Some "python3" |} = true.
Proof.
  apply (notebooks_pass_the_filter PathExt.basename
           {| _model := {| id := "5"; name := ""; path := "work/report.ipynb";
                           type := "notebook"; kernel := Some "python3" |} |}).
  reflexivity.
Defined.

(** The icon and [open] agree: an item with the console icon is opened
    by [console:open] and an item with the file icon by
    [docmanager:open]; an item never has the icon of the running panel. *)
Theorem icon_agrees_with_open (basename : string -> string)
  (item : RunningKernel) (app : App) :
  let ran cmd :=
    executed (open item app)
    = executed app
      ++ [ {| command := cmd; arg_path := path (_model item) |} ] in
  (icon basename item = consoleIcon -> ran "console:open")
  /\ (icon basename item = fileIcon -> ran "docmanager:open")
  /\ icon basename item <> runningIcon.
Proof.
  unfold icon, open.
  destruct (found _ ".ipynb");
    destruct (String.eqb (toLowerCase (type (_model item))) "console");
    repeat split; intros; try discriminate; reflexivity.
Qed.

Lemma lower_char_letters (c : ascii) :
  (lower_char c = "c"%char <-> letter "c" "C" c)
  /\ (lower_char c = "o"%char <-> letter "o" "O" c)
  /\ (lower_char c = "n"%char <-> letter "n" "N" c)
  /\ (lower_char c = "s"%char <-> letter "s" "S" c)
  /\ (lower_char c = "l"%char <-> letter "l" "L" c)
  /\ (lower_char c = "e"%char <-> letter "e" "E" c).
Proof.
  unfold letter.
  destruct c as [[] [] [] [] [] [] [] []]; vm_compute;
    repeat split; intros H; try discriminate H; auto;
    destruct H as [H|H]; discriminate H.
Qed.

Lemma toLowerCase_console (t : string) :
  toLowerCase t = "console" <-> spells_console t.
Proof.
  split.
  - intros H.
    destruct t as [|c0 [|c1 [|c2 [|c3 [|c4 [|c5 [|c6 [|c7 t]]]]]]]];
      simpl in H; try discriminate H.
    injection H as H0 H1 H2 H3 H4 H5 H6.
    exists c0, c1, c2, c3, c4, c5, c6. split; [reflexivity|].
    repeat split; now apply lower_char_letters.
  - intros (c0 & c1 & c2 & c3 & c4 & c5 & c6 & -> & L0 & L1 & L2 & L3 & L4
            & L5 & L6).
    apply lower_char_letters in L0, L1, L2, L3, L4, L5, L6.
    simpl. now rewrite L0, L1, L2, L3, L4, L5, L6.
Qed.

(** [open] runs [console:open] exactly for the items whose type is the
    word [console] with each of its seven letters in either case; no
    other type opens a console. *)
Theorem open_console_for_any_casing (item : RunningKernel) (app : App) :
  spells_console (type (_model item))
  <-> executed (open item app)
      = executed app
        ++ [ {| command := "console:open";
                arg_path := path (_model item) |} ].
Proof.
  rewrite <- toLowerCase_console. unfold open.
  destruct (String.eqb_spec (toLowerCase (type (_model item))) "console")
    as [E|E].
  - split; [reflexivity|auto].
  - split; [contradiction|]. intros H. exfalso.
    apply app_inv_head in H. discriminate H.
Qed.

End KernelsMore.

(** ** More on the open tabs *)

Module OpenTabsMore.
Import Signaling SignalingFacts OpenTabsSignaler SignalerFacts OpenTabs.
Import OpenTabsFacts.

(** *** What [running] connects *)

Lemma running_map_receivers (widgets : list Widget) (w : World) :
  receivers (snd (running_map widgets w))
  = connect_each (main_area_widgets widgets) (receivers w).
Proof.
  revert w. induction widgets as [|widget rest IH]; intros w; simpl.
  - reflexivity.
  - specialize (IH (addWidget widget w)).
    destruct (running_map rest (addWidget widget w)) as [tabs w'].
    simpl in *. rewrite IH. unfold addWidget.
    now destruct (as_MainAreaWidget widget).
Qed.

Lemma connect_keeps (s s' : Signal) (rs : list Connection) :
  findConnection rs s = true ->
  findConnection (snd (connect s' rs)) s = true.
Proof.
  rewrite !findConnection_iff. unfold connect.
  destruct (findConnection rs s'); simpl; [auto|].
  intros H. apply in_or_app. now left.
Qed.

Lemma connect_connects (s : Signal) (rs : list Connection) :
  findConnection (snd (connect s rs)) s = true.
Proof.
  unfold connect. destruct (findConnection rs s) eqn:F; simpl; [exact F|].
  apply findConnection_iff, in_or_app. right. now left.
Qed.

Lemma connect_each_keeps (widgets : list MainAreaWidget) (s : Signal)
  (rs : list Connection) :
  findConnection rs s = true ->
  findConnection (connect_each widgets rs) s = true.
Proof.
  revert rs. induction widgets as [|x rest IH]; intros rs H; simpl; [exact H|].
  apply IH. now apply connect_keeps.
Qed.

Lemma connect_each_connects (widgets : list MainAreaWidget)
  (rs : list Connection) (x : MainAreaWidget) :
  In x widgets ->
  findConnection (connect_each widgets rs) (content_title_changed x) = true.
Proof.
  revert rs. induction widgets as [|y rest IH]; intros rs; simpl; [tauto|].
  intros [->|Hin].
  - apply connect_each_keeps, connect_connects.
  - now apply IH.
Qed.

Lemma connect_each_connected (widgets : list MainAreaWidget)
  (rs : list Connection) :
  (forall x, In x widgets ->
             findConnection rs (content_title_changed x) = true) ->
  connect_each widgets rs = rs.
Proof.
  induction widgets as [|y rest IH]; intros H; simpl; [reflexivity|].
  assert (Hy : findConnection rs (content_title_changed y) = true)
    by (apply H; now left).
  unfold connect at 1. rewrite Hy. simpl.
  apply IH. intros x Hx. apply H. now right.
Qed.

Lemma forEach_map {S X Y : Type} (f : Y -> S -> Completion S) (g : X -> Y)
  (l : list X) (s : S) :
  forEach f (map g l) s = forEach (fun x => f (g x)) l s.
Proof.
  revert s. induction l as [|x rest IH]; intros s; simpl; [reflexivity|].
  destruct (f (g x) s); [apply IH|reflexivity].
Qed.

(** [running] of the open tabs returns one item for each widget of the
    main area, in their order, with the label of the widget; it leaves
    the shell as it is and emits nothing, and it puts the main-area
    widgets at the end of [_widgets]. *)
Theorem running_lists_main_widgets (w : World) :
  fst (running w) = map (fun x => {| _widget := x |}) (main (shell w))
  /\ map label (fst (running w))
     = map (fun x => title_label (widget_title x)) (main (shell w))
  /\ shell (snd (running w)) = shell w
  /\ emissions (snd (running w)) = emissions w
  /\ _widgets (snd (running w))
     = _widgets w ++ main_area_widgets (main (shell w)).
Proof.
  unfold running.
  destruct (running_map_spec (main (shell w)) w) as (Hf & Hs & He & Hw & _).
  rewrite Hf, map_map. auto.
Qed.

(** A second call of [running] returns the same items and makes no new
    connection: every title it asks for is connected already. It does put
    the main-area widgets into [_widgets] once more. *)
Theorem running_twice_connects_once (w : World) :
  let once := snd (running w) in
  let twice := snd (running once) in
  fst (running once) = fst (running w)
  /\ receivers twice = receivers once
  /\ _widgets twice = _widgets once ++ main_area_widgets (main (shell w)).
Proof.
  intros once twice. unfold twice, once, running.
  destruct (running_map_spec (main (shell w)) w) as (Hf & Hs & _ & _ & _).
  set (w1 := snd (running_map (main (shell w)) w)) in *.
  destruct (running_map_spec (main (shell w1)) w1) as (Hf1 & _ & _ & Hw1 & _).
  rewrite Hf1, Hw1, Hf, Hs. repeat split.
  rewrite running_map_receivers. apply connect_each_connected.
  intros x Hx. unfold w1. rewrite running_map_receivers.
  now apply connect_each_connects.
Qed.

(** After an emission, [running] tracks the main-area widgets of the
    shell and no other widget, and the change of the title of the
    content of each of them is heard: it makes one emission. *)
Theorem rescan_tracks_current_main_area (sh : Shell)
  (actions : list Action) :
  let w := run sh actions in
  let w' := step (step w LayoutModified) Running in
  _widgets w' = main_area_widgets (main (shell w))
  /\ Forall
       (fun x =>
          subscribed (content_title_changed x) w' = true
          /\ emissions (step w' (TitleChanged (title_id (content_title x))))
             = S (emissions w'))
       (main_area_widgets (main (shell w))).
Proof.
  intros w w'. pose proof (run_consistent sh actions) as C. fold w in C.
  assert (E : step w LayoutModified = _emitTabsChanged w).
  { simpl. apply fire_connected, (layout_connected _ C). }
  destruct (handler_frame w) as (Hs & Hw & _ & _).
  pose proof (handler_consistent w C) as C1.
  destruct (running_map_spec (main (shell (_emitTabsChanged w)))
              (_emitTabsChanged w)) as (_ & _ & _ & Hw' & Hc).
  assert (Htracked : _widgets w' = main_area_widgets (main (shell w))).
  { unfold w'. rewrite E. simpl. unfold running.
    now rewrite Hw', Hw, Hs. }
  assert (C' : consistent w').
  { unfold w'. rewrite E. simpl. unfold running. now apply Hc. }
  split; [exact Htracked|].
  apply Forall_forall. intros x Hx.
  assert (Hlive : live (content_title_changed x) (receivers w') = 1).
  { apply (tracked_connected w' C'). apply tracked_title_in.
    now rewrite Htracked. }
  split.
  - apply subscribed_iff_live. rewrite Hlive. lia.
  - simpl. fold (content_title_changed x).
    rewrite (fire_connected _ w' Hlive). apply handler_emits_once.
Qed.

Lemma step_emissions (w : World) (a : Action) :
  consistent w ->
  emissions w + (if is_layout_change a then 1 else 0)
  <= emissions (step w a)
  <= emissions w + (if is_notification a then 1 else 0).
Proof.
  intros C.
  assert (Hlayout : emissions (fire layoutModified w) = S (emissions w)).
  { rewrite fire_connected by apply (layout_connected w C).
    apply handler_emits_once. }
  assert (Htitle : forall t,
    emissions w <= emissions (fire (title_changed t) w) <= emissions w + 1).
  { intros t. pose proof (live_title_of_consistent w t C) as H.
    destruct (live (title_changed t) (receivers w)) as [|[|n]] eqn:E;
      [| |lia].
    - rewrite (fire_unconnected _ w E). lia.
    - rewrite (fire_connected _ w E), handler_emits_once. lia. }
  destruct a; simpl; try (unfold emissions; simpl; lia).
  - rewrite Hlayout. lia.
  - specialize (Htitle t). lia.
  - unfold running.
    destruct (running_map_spec (main (shell w)) w) as (_ & _ & He & _ & _).
    rewrite He. lia.
Qed.

Lemma steps_emissions (actions : list Action) (w : World) :
  consistent w ->
  emissions w + length (filter is_layout_change actions)
  <= emissions (fold_left step actions w)
  <= emissions w + length (filter is_notification actions).
Proof.
  revert w. induction actions as [|a rest IH]; intros w C; simpl; [lia|].
  pose proof (step_emissions w a C) as Ha.
  pose proof (IH (step w a) (step_consistent w a C)) as Hrest.
  destruct a; simpl in *; lia.
Qed.

(** The signaler emits only when it is notified: [tabsChanged] is emitted
    once for each change of the layout and at most once for each change
    of a title, and the calls of [running], the changes of the shell and
    the clean-up of the connections emit nothing. *)
Theorem emissions_bounded_by_notifications (sh : Shell)
  (actions : list Action) :
  length (filter is_layout_change actions)
  <= emissions (run sh actions)
  <= length (filter is_notification actions).
Proof.
  unfold run.
  pose proof (steps_emissions actions (constructor sh)
                (constructor_consistent sh)) as H.
  exact H.
Qed.

(** *** Shutting down *)

(** [shutdownAll] does what the [shutdown] of each item of [running]
    does, one item after the other, up to the first that throws. *)
Theorem shutdownAll_is_shutdown_of_each_item
  (outcome : Widget -> CloseOutcome) (w : World) :
  shutdownAll outcome (shell w)
  = forEach (shutdown outcome) (fst (running w)) (shell w).
Proof.
  unfold running.
  destruct (running_map_spec (main (shell w)) w) as (Hf & _).
  rewrite Hf, forEach_map. reflexivity.
Qed.

Lemma filter_twice {A : Type} (p q : A -> bool) (l : list A) :
  filter p (filter q l) = filter (fun y => q y && p y) l.
Proof.
  induction l as [|y l IH]; simpl; [reflexivity|].
  destruct (q y); simpl; [|exact IH].
  destruct (p y); now rewrite IH.
Qed.

Lemma filter_none {A : Type} (p : A -> bool) (l : list A) :
  (forall y, In y l -> p y = false) -> filter p l = [].
Proof.
  induction l as [|y l IH]; intros H; simpl; [reflexivity|].
  rewrite (H y) by now left. apply IH. intros z Hz. apply H. now right.
Qed.

(** The loop over widgets that all close: a widget leaves the shell with
    every widget of the main area that has its [id]. *)
Lemma forEach_close_all (outcome : Widget -> CloseOutcome)
  (widgets : list Widget) (sh : Shell) :
  (forall x, In x widgets -> outcome x = Closes) ->
  forEach (close outcome) widgets sh
  = Normal
      {| main := filter (fun y => negb (among widgets y)) (main sh);
         activated := activated sh;
         close_calls := close_calls sh ++ map widget_id widgets |}.
Proof.
  revert sh. induction widgets as [|x rest IH]; intros sh H; simpl.
  - rewrite app_nil_r. destruct sh as [m a c]. simpl. f_equal. f_equal.
    induction m as [|y m IHm]; simpl; [reflexivity|]. now rewrite <- IHm.
  - unfold close at 1. rewrite (H x) by now left.
    rewrite IH by (intros y Hy; apply H; now right). simpl.
    f_equal. f_equal.
    + rewrite filter_twice. apply filter_ext. intros y.
      now rewrite negb_orb.
    + now rewrite <- app_assoc.
Qed.

(** When every widget of the main area closes, [shutdownAll] calls
    [close] on each of them in their order and returns, and the main area
    is empty: no widget is skipped although the main area shrinks during
    the loop. A second [shutdownAll] then has nothing to do. *)
Theorem shutdownAll_closes_every_tab (outcome : Widget -> CloseOutcome)
  (sh : Shell) :
  (forall x, In x (main sh) -> outcome x = Closes) ->
  let result := shutdownAll outcome sh in
  returns result = true
  /\ main (state_of result) = []
  /\ close_calls (state_of result)
     = close_calls sh ++ map widget_id (main sh)
  /\ shutdownAll outcome (state_of result) = Normal (state_of result).
Proof.
  intros H result. unfold result, shutdownAll.
  rewrite (forEach_close_all outcome (main sh) sh H). simpl.
  assert (E : filter (fun y => negb (among (main sh) y)) (main sh) = []).
  { apply filter_none. intros y Hy. apply negb_false_iff.
    apply existsb_exists. exists y. split; [exact Hy|apply String.eqb_refl]. }
  rewrite E. auto.
Qed.

Lemma shutdownAll_closes_every_tab_witness :
  main (state_of (shutdownAll (fun _ => Closes) Sample.three_tabs)) = []
  /\ close_calls (state_of (shutdownAll (fun _ => Closes) Sample.three_tabs))
     = ["launcher-0"; "notebook-1"; "inspector-2"].
Proof.
  pose proof (shutdownAll_closes_every_tab (fun _ => Closes)
                Sample.three_tabs (fun x _ => eq_refl)) as H.
  split; [exact (proj1 (proj2 H))|exact (proj1 (proj2 (proj2 H)))].
Defined.

End OpenTabsMore.

(** ** Widgets that are disposed *)

Module LifetimeFacts.
Import Signaling SignalingFacts OpenTabsSignaler SignalerFacts OpenTabs.
Import OpenTabsFacts.

Lemma world_eta (lw : Lifetime.World) :
  lw = {| Lifetime.base := Lifetime.base lw;
          Lifetime.disposed := Lifetime.disposed lw |}.
Proof. now destruct lw. Qed.

Lemma disconnect_current_alive (titles : list TitleId)
  (widgets : list MainAreaWidget) (w : World) :
  (forall x, In x widgets -> Lifetime.is_disposed titles x = false) ->
  fold_left (Lifetime.disconnect_current titles) widgets w
  = disconnect_all widgets w.
Proof.
  revert w. induction widgets as [|x rest IH]; intros w H; simpl.
  - reflexivity.
  - unfold Lifetime.disconnect_current at 2. rewrite (H x) by now left.
    apply IH. intros y Hy. apply H. now right.
Qed.

(** With no tracked widget disposed the handler is the handler of the
    signaler without disposals. *)
Lemma handler_alive (lw : Lifetime.World) :
  (forall x, In x (_widgets (Lifetime.base lw)) ->
             Lifetime.is_disposed (Lifetime.disposed lw) x = false) ->
  Lifetime._emitTabsChanged lw
  = {| Lifetime.base := _emitTabsChanged (Lifetime.base lw);
       Lifetime.disposed := Lifetime.disposed lw |}.
Proof.
  intros H. unfold Lifetime._emitTabsChanged.
  now rewrite (disconnect_current_alive _ _ _ H).
Qed.

Lemma fire_alive (s : Signal) (lw : Lifetime.World) :
  Lifetime.sound lw ->
  Lifetime.fire s lw
  = {| Lifetime.base := fire s (Lifetime.base lw);
       Lifetime.disposed := Lifetime.disposed lw |}.
Proof.
  intros [C Ht _].
  assert (H : live s (receivers (Lifetime.base lw)) = 1
              \/ live s (receivers (Lifetime.base lw)) = 0).
  { destruct s as [|t].
    - left. apply (layout_connected _ C).
    - pose proof (live_title_of_consistent _ t C). lia. }
  destruct H as [H|H].
  - rewrite (fire_connected s _ H). rewrite <- (handler_alive lw Ht).
    apply (emit_connected_once Lifetime.World); [exact H|].
    rewrite (handler_alive lw Ht). simpl. apply handler_faded.
  - rewrite (fire_unconnected s _ H). rewrite <- world_eta.
    apply (emit_unconnected Lifetime.World). simpl.
    now apply (count_occ_not_In connection_eq_dec).
Qed.

Lemma fire_shell (s : Signal) (w : World) :
  consistent w ->
  shell (fire s w) = shell w
  /\ (_widgets (fire s w) = [] \/ _widgets (fire s w) = _widgets w).
Proof.
  intros C.
  assert (H : live s (receivers w) = 1 \/ live s (receivers w) = 0).
  { destruct s as [|t].
    - left. apply (layout_connected _ C).
    - pose proof (live_title_of_consistent _ t C). lia. }
  destruct H as [H|H].
  - rewrite (fire_connected s _ H).
    destruct (handler_frame w) as (Hs & Hw & _). auto.
  - rewrite (fire_unconnected s _ H). auto.
Qed.

Lemma live_clear_all (s s' : Signal) (rs : list Connection) :
  live s' (Lifetime.clear_all s rs)
  = if signal_eqb s s' then 0 else live s' rs.
Proof.
  induction rs as [|c rest IH]; simpl.
  - now destruct (signal_eqb s s').
  - unfold Lifetime.clear_all in *. rewrite !live_cons, IH.
    destruct (connected_to s c) eqn:C.
    + apply connected_to_iff in C. subst c. simpl.
      destruct (signal_eqb_spec s s') as [E|N]; [reflexivity|reflexivity].
    + destruct (signal_eqb_spec s s') as [E|N]; [|reflexivity].
      subst s'. now rewrite C.
Qed.

Lemma main_area_widgets_shown (widgets : list Widget) (x : MainAreaWidget) :
  In x (main_area_widgets widgets) -> In (MainArea x) widgets.
Proof.
  induction widgets as [|widget rest IH]; simpl; [auto|].
  destruct widget as [i t|y]; simpl.
  - intros H. right. now apply IH.
  - intros [->|H]; [now left|right; now apply IH].
Qed.

Lemma untracked_title (w : World) (x y : MainAreaWidget) :
  Lifetime.is_disposed (tracked_titles w) x = false ->
  In y (_widgets w) ->
  Nat.eqb (title_id (content_title y)) (title_id (content_title x)) = false.
Proof.
  intros H Hy. apply Nat.eqb_neq. intros E.
  apply Bool.not_true_iff_false in H. apply H.
  apply existsb_exists. exists (title_id (content_title y)).
  split; [now apply tracked_title_in|]. apply Nat.eqb_eq. now symmetry.
Qed.

(** Disposing a widget that is not tracked keeps the world sound. *)
Lemma dispose_sound (how : Lifetime.TitleDisposal) (x : MainAreaWidget)
  (lw : Lifetime.World) :
  Lifetime.sound lw ->
  Lifetime.is_disposed (tracked_titles (Lifetime.base lw)) x = false ->
  Lifetime.sound (Lifetime.dispose how x lw).
Proof.
  intros [C Ht Hs] Hx.
  set (t := title_id (content_title x)).
  assert (Hnot : ~ In t (tracked_titles (Lifetime.base lw))).
  { intros Hin. apply Bool.not_true_iff_false in Hx. apply Hx.
    apply existsb_exists. exists t. split; [exact Hin|apply Nat.eqb_refl]. }
  split.
  - destruct C as [C1 C2 C3]. split; simpl; destruct how; auto.
    + now rewrite live_clear_all.
    + intros u Hu. rewrite live_clear_all. fold t.
      destruct (signal_eqb_spec (title_changed t) (title_changed u)) as [E|N].
      * injection E as E. subst u. contradiction.
      * now apply C2.
    + intros u Hu. rewrite live_clear_all. fold t.
      destruct (signal_eqb_spec (title_changed t) (title_changed u)) as [E|N];
        [reflexivity|now apply C3].
  - intros y Hy. simpl in Hy. simpl.
    assert (Hy' : In y (_widgets (Lifetime.base lw))) by (destruct how; exact Hy).
    rewrite (untracked_title _ x y Hx Hy'). simpl. now apply Ht.
  - intros y Hy. simpl in Hy.
    assert (Hy' : In (MainArea y)
                    (filter (fun z => negb (Lifetime.has_title t z))
                       (filter
                          (fun z => negb (String.eqb (widget_id z)
                                            (widget_id (MainArea x))))
                          (main (shell (Lifetime.base lw))))))
      by (destruct how; exact Hy).
    apply filter_In in Hy' as [Hy' Hf]. apply filter_In in Hy' as [Hy' _].
    simpl. apply negb_true_iff in Hf. unfold Lifetime.has_title in Hf.
    simpl in Hf. fold t. rewrite Hf. simpl. now apply Hs.
Qed.

Lemma step_sound (how : Lifetime.TitleDisposal) (lw : Lifetime.World)
  (a : Lifetime.Action) :
  Lifetime.sound lw ->
  Lifetime.disposed_untracked how lw [a] = true ->
  Lifetime.sound (Lifetime.step how lw a).
Proof.
  intros S Ha. pose proof S as [C Ht Hs].
  destruct a as [[widget|widget| |t| |]|x]; simpl.
  - destruct (existsb _ (Lifetime.disposed lw)) eqn:E; [exact S|].
    split; simpl; [now destruct C; split|exact Ht|].
    intros y Hy. apply in_app_or in Hy as [Hy|[Hy|[]]]; [now apply Hs|].
    subst widget. exact E.
  - split; simpl; [now destruct C; split|exact Ht|].
    intros y Hy. apply filter_In in Hy as [Hy _]. now apply Hs.
  - rewrite (fire_alive _ lw S).
    destruct (fire_shell layoutModified _ C) as (Hsh & Hw).
    split; simpl; [now apply fire_consistent| |now rewrite Hsh].
    destruct Hw as [-> | ->]; [intros y []|exact Ht].
  - rewrite (fire_alive _ lw S).
    destruct (fire_shell (title_changed t) _ C) as (Hsh & Hw).
    split; simpl; [now apply fire_consistent| |now rewrite Hsh].
    destruct Hw as [-> | ->]; [intros y []|exact Ht].
  - unfold running.
    destruct (running_map_spec (main (shell (Lifetime.base lw)))
                (Lifetime.base lw)) as (_ & Hsh & _ & Hw & Hc).
    split; simpl; [now apply Hc| |now rewrite Hsh].
    rewrite Hw. intros y Hy. apply in_app_or in Hy as [Hy|Hy];
      [now apply Ht|]. apply Hs. now apply main_area_widgets_shown.
  - split; simpl; [|exact Ht|exact Hs].
    apply (step_consistent _ CleanUp C).
  - simpl in Ha. rewrite andb_true_r in Ha. apply negb_true_iff in Ha.
    now apply dispose_sound.
Qed.

Lemma steps_sound (how : Lifetime.TitleDisposal) (actions : list Lifetime.Action)
  (lw : Lifetime.World) :
  Lifetime.sound lw ->
  Lifetime.disposed_untracked how lw actions = true ->
  Lifetime.sound (fold_left (Lifetime.step how) actions lw).
Proof.
  revert lw. induction actions as [|a rest IH]; intros lw S H; simpl.
  - exact S.
  - simpl in H. apply andb_true_iff in H as [Ha Hrest].
    apply IH; [|exact Hrest]. apply step_sound; [exact S|].
    simpl. now rewrite Ha.
Qed.

Lemma start_sound (sh : Shell) : Lifetime.sound (Lifetime.start sh).
Proof.
  split; simpl.
  - apply constructor_consistent.
  - intros x [].
  - reflexivity.
Qed.

(** Title changes in a sound world are those of the signaler without
    disposals. *)
Lemma title_changes_alive (how : Lifetime.TitleDisposal)
  (batch : list TitleId) (lw : Lifetime.World) :
  Lifetime.sound lw ->
  fold_left (Lifetime.step how) (Lifetime.title_changes batch) lw
  = {| Lifetime.base :=
         fold_left step (map TitleChanged batch) (Lifetime.base lw);
       Lifetime.disposed := Lifetime.disposed lw |}.
Proof.
  revert lw. induction batch as [|t rest IH]; intros lw S; simpl.
  - apply world_eta.
  - pose proof (step_sound how lw (Lifetime.Does (TitleChanged t)) S eq_refl)
      as S'.
    simpl in S'. rewrite (IH _ S'). now rewrite (fire_alive _ lw S).
Qed.




(** As long as no widget is disposed while the signaler tracks it, the
    signaler is connected, between two calls, to the title of the content
    of each tracked widget and to no other title, once to each, and once
    to the layout of the shell. *)
Theorem undisposed_subscribed_iff_tracked (how : Lifetime.TitleDisposal)
  (sh : Shell) (actions : list Lifetime.Action) :
  Lifetime.disposed_untracked how (Lifetime.start sh) actions = true ->
  let w := Lifetime.base (Lifetime.run how sh actions) in
  (forall t, subscribed (title_changed t) w = true
             <-> In t (tracked_titles w))
  /\ (forall s, live s (receivers w) <= 1)
  /\ live layoutModified (receivers w) = 1.
Proof.
  intros Hsafe w.
  assert (C : consistent w).
  { apply Lifetime.base_consistent, steps_sound;
      [apply start_sound|exact Hsafe]. }
  split; [|split].
  - intros t. rewrite subscribed_iff_live.
    destruct (in_dec Nat.eq_dec t (tracked_titles w)) as [H|H].
    + rewrite (tracked_connected w C t H). split; [auto|lia].
    + rewrite (untracked_unconnected w C t H). split; [lia|contradiction].
  - intros [|t].
    + rewrite (layout_connected w C). lia.
    + now apply live_title_of_consistent.
  - apply (layout_connected w C).
Qed.

Lemma undisposed_subscribed_iff_tracked_witness :
  live layoutModified
    (receivers
       (Lifetime.base
          (Lifetime.run Lifetime.TitleCleared Sample.three_tabs
             [Lifetime.Disposes Sample.launcher; Lifetime.Does Running;
              Lifetime.Does Running]))) = 1.
Proof.
  apply (undisposed_subscribed_iff_tracked Lifetime.TitleCleared
           Sample.three_tabs
           [Lifetime.Disposes Sample.launcher; Lifetime.Does Running;
            Lifetime.Does Running]).
  reflexivity.
Defined.

(** As long as no widget is disposed while the signaler tracks it, a
    change of the layout drops the tracking of the titles: after it the
    signaler tracks no widget and listens to no title, it still listens
    to the layout, and title changes do nothing to it. *)
Theorem undisposed_layout_change_drops_tracking
  (how : Lifetime.TitleDisposal) (sh : Shell)
  (actions : list Lifetime.Action) (later : list TitleId) :
  Lifetime.disposed_untracked how (Lifetime.start sh) actions = true ->
  let lw :=
    Lifetime.step how (Lifetime.run how sh actions)
      (Lifetime.Does LayoutModified) in
  _widgets (Lifetime.base lw) = []
  /\ (forall t, subscribed (title_changed t) (Lifetime.base lw) = false)
  /\ subscribed layoutModified (Lifetime.base lw) = true
  /\ fold_left (Lifetime.step how) (Lifetime.title_changes later) lw = lw.
Proof.
  intros Hsafe lw.
  assert (Sd : Lifetime.sound (Lifetime.run how sh actions))
    by (apply steps_sound; [apply start_sound|exact Hsafe]).
  pose proof (Lifetime.base_consistent _ Sd) as C.
  assert (Sd' : Lifetime.sound lw)
    by (apply step_sound; [exact Sd|reflexivity]).
  assert (E : Lifetime.base lw
              = _emitTabsChanged (Lifetime.base (Lifetime.run how sh actions))).
  { unfold lw. simpl. rewrite (fire_alive _ _ Sd). simpl.
    apply fire_connected, (layout_connected _ C). }
  assert (Hdead : forall t,
    live (title_changed t) (receivers (Lifetime.base lw)) = 0).
  { intros t. rewrite E. now apply handler_unsubscribes. }
  split; [rewrite E; apply handler_frame|].
  split; [intros t; apply subscribed_false_iff, Hdead|].
  split.
  - apply subscribed_iff_live. rewrite E.
    rewrite (layout_connected _ (handler_consistent _ C)). lia.
  - rewrite (title_changes_alive how later lw Sd').
    rewrite (title_changes_unheard later _ Hdead). symmetry. apply world_eta.
Qed.

Lemma undisposed_layout_change_drops_tracking_witness :
  _widgets
    (Lifetime.base
       (Lifetime.step Lifetime.TitleKept
          (Lifetime.run Lifetime.TitleKept Sample.three_tabs
             [Lifetime.Does Running; Lifetime.Does (TitleChanged 11);
              Lifetime.Disposes Sample.launcher; Lifetime.Does Running])
          (Lifetime.Does LayoutModified))) = [].
Proof.
  apply (undisposed_layout_change_drops_tracking Lifetime.TitleKept
           Sample.three_tabs
           [Lifetime.Does Running; Lifetime.Does (TitleChanged 11);
            Lifetime.Disposes Sample.launcher; Lifetime.Does Running]
           []).
  reflexivity.
Defined.

End LifetimeFacts.
